(** * okcupyd.util.currying: the [curry] class

    A shallow embedding of [src/okcupyd/util/currying.py] and the properties
    of the curry wrapper: the arity and count evaluation checkers, the
    accumulation of positional and named arguments by [__call__], the
    descriptor method [__get__] and the self-application
    [curry = curry(curry)].

    Python objects that the class creates or mutates (curry instances, the
    dictionaries held in [self.kwargs], the instances a wrapper is bound to)
    live in a heap, addressed by location, so that aliasing and mutation are
    visible.  Calls of wrapped user functions are recorded in a log. *)

From stdpp Require Import gmap strings list fin_maps.

Local Open Scope string_scope.
Local Open Scope list_scope.
Local Open Scope nat_scope.

(** ** Values *)

Definition loc := nat.
Definition fid := nat.

(** The callables of the model.  [CFun f] is a user function, user class or
    bound method, described by entry [f] of the function table.  [CCurry]
    is the class [curry] itself (the class statement of line 4, not the
    rebound public name of line 131).  [CArity c] is the closure [evaluation_checker] that
    [arity_evaluation_checker(c)] returns; the variables it captures,
    [function_info] and [function_args], are functions of [c].  [CCount n] is
    the closure [function] that [count_evaluation_checker(n)] returns. *)
Inductive callable :=
| CFun (f : fid)
| CCurry
| CArity (c : callable)
| CCount (count : Z).

#[warnings="-register-all"]
Inductive value :=
| VNone
| VBool (b : bool)
| VInt (n : Z)
| VStr (s : string)
| VTuple (vs : list value)
| VCallable (c : callable)
| VObj (l : loc).

(** Exceptions.  [TypeError] and [AttributeError] are the interpreter's;
    [UserError] is whatever else a wrapped function raises.  [OutOfModel]
    marks the executions the model does not describe (a heap object used as
    a callable, attribute protocols of user instances): nothing is claimed
    about what Python does there. *)
Inductive exn :=
| TypeError
| AttributeError
| UserError (v : value)
| OutOfModel.

Inductive outcome (A : Type) :=
| Ok (a : A)
| Raise (e : exn).
Arguments Ok {A} a.
Arguments Raise {A} e.

(** [inspect.getargspec]'s result.  [defaults] is [None] or a non-empty
    tuple in Python; only its truth value and its length are used, so [[]]
    stands for [None]. *)
Record argspec := ArgSpec {
  spec_args : list string;
  spec_varargs : option string;
  spec_keywords : option string;
  spec_defaults : list value
}.

(** A user function, class or bound method: what [curry] reads from it
    (name, docstring, whether it is a class, what [inspect.getargspec]
    reports: the argspec of the function, of the class's [__init__], or of
    the function under a bound method, receiver included) and what calling
    it with positional and named arguments gives.  [fn_is_bound_method]
    tells a method already bound to its receiver; [inspect.isclass] does
    not see it.  Wrapped functions are functions of their arguments: they
    do not reach into the heap of curry objects. *)
Record pyfunc := PyFunc {
  fn_name : string;
  fn_doc : option string;
  fn_is_class : bool;
  fn_is_bound_method : bool;
  fn_spec : argspec;
  fn_body : list value → gmap string value → outcome value
}.

(** ** Heap objects *)

(** The instance attributes that [curry.__init__] sets. *)
Record curry_obj := CurryObj {
  self_function : value;
  self_evaluation_checker : value;
  self_args : value;
  self_kwargs : value;
  self_name : value;
  self_doc : value
}.

Inductive obj :=
| ODict (d : gmap string value)
| OCurry (o : curry_obj)
| OInstance (attrs : gmap string value).

(** One logged call of a user function: which one, and its arguments. *)
Definition call_event : Type := fid * list value * gmap string value.

Record state := State {
  heap : gmap loc obj;
  log : list call_event
}.

(** ** A state and exception monad *)

Definition M (A : Type) : Type := state → outcome A * state.

Definition ret {A} (a : A) : M A := λ st, (Ok a, st).
Definition raise {A} (e : exn) : M A := λ st, (Raise e, st).
Definition bind {A B} (m : M A) (k : A → M B) : M B :=
  λ st, match m st with
        | (Ok a, st') => k a st'
        | (Raise e, st') => (Raise e, st')
        end.
Definition lift {A} (r : outcome A) : M A := λ st, (r, st).

Declare Scope py_scope.
Delimit Scope py_scope with py.
Notation "'let!' x ':=' c 'in' k" := (bind c (λ x, k))
  (at level 10, x name, c at level 100, k at level 200) : py_scope.
Notation "c ';;;' k" := (bind c (λ _, k))
  (at level 100, k at level 200, right associativity) : py_scope.
Local Open Scope py_scope.

Definition get_heap : M (gmap loc obj) := λ st, (Ok (heap st), st).

(** Allocation returns a location that is not in use. *)
Definition alloc (o : obj) : M loc :=
  λ st, let l := fresh (dom (heap st)) in
        (Ok l, State (<[l := o]> (heap st)) (log st)).

Definition store (l : loc) (o : obj) : M unit :=
  λ st, (Ok tt, State (<[l := o]> (heap st)) (log st)).

Definition record_call (e : call_event) : M unit :=
  λ st, (Ok tt, State (heap st) (log st ++ [e])).

(** ** Python primitives the class relies on *)

(** Truth value of an object, as [or] and [if] test it.  Instances of user
    classes and curry objects define neither [__len__] nor a truth method,
    so they are true. *)
Definition truthy (h : gmap loc obj) (v : value) : bool :=
  match v with
  | VNone => false
  | VBool b => b
  | VInt n => negb (n =? 0)%Z
  | VStr s => negb (String.eqb s "")
  | VTuple vs => match vs with [] => false | _ => true end
  | VCallable _ => true
  | VObj l => match h !! l with
              | Some (ODict d) => negb (bool_decide (dom d = ∅))
              | _ => true
              end
  end.

(** [a + b] on tuples, as in [self.args + args]; [b] is always a tuple at
    the two places of the source. *)
Definition tuple_add (a : value) (b : list value) : M value :=
  match a with
  | VTuple vs => ret (VTuple (vs ++ b))
  | VObj l =>
      let! h := get_heap in
      match h !! l with
      | Some (OInstance _) => raise OutOfModel
      | _ => raise TypeError
      end
  | _ => raise TypeError
  end.

(** [d.copy()]: a new dictionary with the same bindings. *)
Definition dict_copy (d : value) : M loc :=
  match d with
  | VObj l =>
      let! h := get_heap in
      match h !! l with
      | Some (ODict m) => alloc (ODict m)
      | Some (OInstance _) => raise OutOfModel
      | _ => raise AttributeError
      end
  | VCallable _ => raise OutOfModel
  | _ => raise AttributeError
  end.

(** [d.update(kwargs)] in place: the bindings of [kwargs] replace those of
    [d] with the same key. *)
Definition dict_update (l : loc) (kwargs : gmap string value) : M unit :=
  let! h := get_heap in
  match h !! l with
  | Some (ODict m) => store l (ODict (kwargs ∪ m))
  | _ => raise AttributeError
  end.

(** The bindings of the dictionary at [l], as [**d] passes them. *)
Definition dict_items (l : loc) : M (gmap string value) :=
  let! h := get_heap in
  match h !! l with
  | Some (ODict m) => ret m
  | _ => raise TypeError
  end.

(** [setattr(obj, name, v)].  The name must be a string; the attribute is
    stored in the instance's dictionary. *)
Definition setattr (obj name v : value) : M unit :=
  match name with
  | VStr s =>
      match obj with
      | VObj l =>
          let! h := get_heap in
          match h !! l with
          | Some (OInstance attrs) => store l (OInstance (<[s := v]> attrs))
          | Some (ODict _) => raise AttributeError
          | _ => raise OutOfModel
          end
      | VCallable _ => raise OutOfModel
      | _ => raise AttributeError
      end
  | _ => raise TypeError
  end.

(** Binding of positional and named arguments to the parameters of a
    function declared without [*args] and [**kwargs]; the last
    [length defaults] parameters have defaults. *)
Definition bind_params (params : list string) (defaults : list value)
    (args : list value) (kwargs : gmap string value)
    : outcome (gmap string value) :=
  let positional : gmap string value := list_to_map (zip params args) in
  let rest : gset string := list_to_set (drop (length args) params) in
  let dflt : gmap string value :=
    list_to_map (zip (drop (length params - length defaults) params) defaults) in
  let env := positional ∪ kwargs ∪ dflt in
  if decide (length params < length args) then Raise TypeError
  else if decide (dom kwargs ⊆ rest) then
    if forallb (λ p, bool_decide (p ∈ dom env)) params then Ok env
    else Raise TypeError
  else Raise TypeError.

(** ** The class [curry] *)

(** The docstring of the class (lines 5-52 of the source). *)
Definition curry_doc : string :=
"Curry a function or method.

    Applying :class:`~.curry` to a function creates a callable with the same
    functionality that can be invoked with an incomplete argument list to
    create a partial application of the original function.

    .. code-block:: python

        @curry
        def greater_than(x, y):
           return x > y

        less_than_40 = func(40)

        less_than_40(39) # This will evaluate to True
        less_than_40(50) # This will evaluate to False

    A particular compelling use case for :class:`~.curry` is the creation of
    decorators that take optional arguments:

    .. code-block:: python

        @curry
        def add_n(function, n=1):
            def wrapped(*args, **kwargs):
                return function(*args, **kwargs) + n
            return wrapped

        @add_n(n=12)
        def multiply_plus_twelve(x, y):
            return x * y

        @add_n
        def multiply_plus_one(x, y):
            return x * y

    Notice that we were able to use `add_n` with its default without supplying
    an argument, but also by supplying argument without any special syntax.

    The version of curry that is available for import has been curried itself.
    That is, its constructor can be invoked partially:

    .. code-block:: python

        @curry(evaluation_checker=lambda *args, **kwargs: len(args) > 2)
        def args_taking_function(*args):
            return reduce(lambda x, y: x*y, args)
    ".

(** The parameters of [curry.__init__] after [self], and their defaults. *)
Definition init_params : list string :=
  ["function"; "evaluation_checker"; "args"; "kwargs"].
Definition init_defaults : list value := [VNone; VTuple []; VNone].

(** An expression statement: the value is built and dropped. *)
Definition discard {A} (a : A) : M unit := ret tt.

Section Curry.

(** The user functions and classes of the program, by identifier. *)
Variable fenv : fid → pyfunc.

Definition callable_name (c : callable) : string :=
  match c with
  | CFun f => fn_name (fenv f)
  | CCurry => "curry"
  | CArity _ => "evaluation_checker"
  | CCount _ => "function"
  end.

Definition callable_doc (c : callable) : value :=
  match c with
  | CFun f => match fn_doc (fenv f) with Some d => VStr d | None => VNone end
  | CCurry => VStr curry_doc
  | CArity _ => VNone
  | CCount _ => VNone
  end.

(** [inspect.isclass(function)]. *)
Definition isclass (c : callable) : bool :=
  match c with
  | CFun f => fn_is_class (fenv f)
  | CCurry => true
  | _ => false
  end.

(** [inspect.getargspec] of the function, or of [function.__init__] when
    the function is a class (lines 59-62).  For a bound method it is the
    argspec of the function under the method. *)
Definition getargspec (c : callable) : argspec :=
  match c with
  | CFun f => fn_spec (fenv f)
  | CCurry => ArgSpec ("self" :: init_params) None None init_defaults
  | CArity _ => ArgSpec [] (Some "args") (Some "kwargs") []
  | CCount _ => ArgSpec [] (Some "args") (Some "kwargs") []
  end.

(** [function_args] as the closure captures it (lines 63-67): the declared
    parameters, without [self] for a class. *)
Definition function_args (c : callable) : list string :=
  let function_args := spec_args (getargspec c) in
  if isclass c then drop 1 function_args else function_args.

(** The closure [evaluation_checker] of lines 68-81, applied to the
    positional arguments [args] and the named arguments [kwargs]. *)
Definition evaluation_checker (function_info : argspec)
    (function_args : list string)
    (args : list value) (kwargs : gmap string value) : M value :=
  let kwarg_keys : gset string := dom kwargs in
  (match spec_keywords function_info with
   | None =>
       let acceptable_kwargs := drop (length args) function_args in
       if negb (bool_decide (kwarg_keys ⊆ list_to_set acceptable_kwargs))
       then discard TypeError
       else ret tt
   | Some _ => ret tt
   end) ;;;
  let needed_args := drop (length args) function_args in
  let needed_args :=
    match spec_defaults function_info with
    | [] => needed_args
    | _ :: _ =>
        take (length needed_args - length (spec_defaults function_info))
             needed_args
    end in
  ret (VBool (match needed_args with
              | [] => true
              | _ :: _ => bool_decide (list_to_set needed_args ⊆ kwarg_keys)
              end)).

(** [curry.arity_evaluation_checker(function)] (lines 54-82).  Introspection
    of something that is neither a function nor a class fails. *)
Definition arity_evaluation_checker (function : value) : M value :=
  match function with
  | VCallable c => ret (VCallable (CArity c))
  | VObj _ => raise OutOfModel
  | _ => raise TypeError
  end.

(** [curry.count_evaluation_checker(count)] (lines 84-88) returns the
    closure [CCount count], whose body is [len(args) >= count]. *)
Definition count_evaluation_checker (count : Z) : value :=
  VCallable (CCount count).

Definition count_function (count : Z)
    (args : list value) (kwargs : gmap string value) : M value :=
  ret (VBool (count <=? Z.of_nat (length args))%Z).

(** [function.__name__] and [function.__doc__].  The docstring is read
    only after the name has been, so only for a function or class. *)
Definition getattr_name (function : value) : M value :=
  match function with
  | VCallable c => ret (VStr (callable_name c))
  | VObj _ => raise OutOfModel
  | _ => raise AttributeError
  end.

Definition getattr_doc (function : value) : M value :=
  match function with
  | VCallable c => ret (callable_doc c)
  | _ => raise OutOfModel
  end.

(** [curry.__init__] (lines 90-104).  It returns the attributes it sets on
    [self]; the new object is put in the heap by the class call below, once
    they are all set. *)
Definition __init__ (function evaluation_checker args kwargs : value)
    : M curry_obj :=
  let! h := get_heap in
  let! checker :=
    (if truthy h evaluation_checker then ret evaluation_checker
     else arity_evaluation_checker function) in
  let! h := get_heap in
  let! kw :=
    (if truthy h kwargs then ret kwargs
     else let! l := alloc (ODict ∅) in ret (VObj l)) in
  let! name := getattr_name function in
  let! doc := getattr_doc function in
  ret (CurryObj function checker args kw name doc).

(** Calling the class: [type(self)(...)] in the source, and the call that
    a wrapper of the class makes.  The arguments are bound to the
    parameters of [__init__]. *)
Definition curry_class_call (args : list value) (kwargs : gmap string value)
    : M value :=
  let! env := lift (bind_params init_params init_defaults args kwargs) in
  let arg (p : string) : value := default VNone (env !! p) in
  let! o := __init__ (arg "function") (arg "evaluation_checker")
                     (arg "args") (arg "kwargs") in
  let! l := alloc (OCurry o) in
  ret (VObj l).

(** Calling one of the callables. *)
Definition call_callable (c : callable)
    (args : list value) (kwargs : gmap string value) : M value :=
  match c with
  | CFun f =>
      record_call (f, args, kwargs) ;;; lift (fn_body (fenv f) args kwargs)
  | CCurry => curry_class_call args kwargs
  | CArity c' =>
      evaluation_checker (getargspec c') (function_args c') args kwargs
  | CCount count => count_function count args kwargs
  end.

(** Calling what a wrapper holds in [self.evaluation_checker] and
    [self.function]. *)
Definition call_value (v : value)
    (args : list value) (kwargs : gmap string value) : M value :=
  match v with
  | VCallable c => call_callable c args kwargs
  | VObj _ => raise OutOfModel
  | _ => raise TypeError
  end.

Definition read_curry (self : loc) : M curry_obj :=
  let! h := get_heap in
  match h !! self with
  | Some (OCurry o) => ret o
  | _ => raise OutOfModel
  end.

Definition untuple (v : value) : M (list value) :=
  match v with
  | VTuple vs => ret vs
  | _ => raise TypeError
  end.

(** [curry.__call__] (lines 106-114).  The method is declared with the
    receiver [self], starred positional and starred named parameters: a
    call with a named argument [self] does not bind, and Python raises
    [TypeError] before the body runs. *)
Definition __call__ (self : loc)
    (args : list value) (kwargs : gmap string value) : M value :=
  if bool_decide ("self" ∈ dom kwargs) then raise TypeError else
  let! o := read_curry self in
  let! new_args := tuple_add (self_args o) args in
  let! new_kwargs := dict_copy (self_kwargs o) in
  dict_update new_kwargs kwargs ;;;
  let! star_args := untuple new_args in
  let! star_kwargs := dict_items new_kwargs in
  let! enough := call_value (self_evaluation_checker o) star_args star_kwargs in
  let! h := get_heap in
  if truthy h enough then
    call_value (self_function o) star_args star_kwargs
  else
    curry_class_call
      [self_function o; self_evaluation_checker o; new_args; VObj new_kwargs]
      ∅.

(** [curry.__get__] (lines 116-124). *)
Definition __get__ (self : loc) (obj obj_type : value) : M value :=
  match obj with
  | VNone => ret (VObj self)
  | _ =>
      let! o := read_curry self in
      let! bound_args := tuple_add (self_args o) [obj] in
      let! bound :=
        curry_class_call
          [self_function o; self_evaluation_checker o]
          {[ "args" := bound_args; "kwargs" := self_kwargs o ]} in
      let! name := getattr_name (self_function o) in
      setattr obj name bound ;;;
      let! doc := getattr_doc (self_function o) in
      setattr obj doc bound ;;;
      ret bound
  end.

(** A call expression of client code: [v] called with the positional
    arguments [args] and the named arguments [kwargs]. *)
Definition invoke (v : value)
    (args : list value) (kwargs : gmap string value) : M value :=
  match v with
  | VObj l =>
      let! h := get_heap in
      match h !! l with
      | Some (OCurry _) => __call__ l args kwargs
      | Some (ODict _) => raise TypeError
      | _ => raise OutOfModel
      end
  | VCallable c => call_callable c args kwargs
  | _ => raise TypeError
  end.

(** Successive calls: [v] is called with the first pair of arguments, the
    result with the second, and so on. *)
Fixpoint invoke_all (v : value)
    (calls : list (list value * gmap string value)) : M value :=
  match calls with
  | [] => ret v
  | (args, kwargs) :: calls' =>
      let! r := invoke v args kwargs in
      invoke_all r calls'
  end.

End Curry.

(** ** Example programs *)

(** A function declared [def name(params...)] whose last parameters have the
    given defaults: its argspec and its call behaviour come from the same
    declaration. *)
Definition py_def (name : string) (doc : option string)
    (params : list string) (defaults : list value)
    (impl : gmap string value → outcome value) : pyfunc :=
  PyFunc name doc false false (ArgSpec params None None defaults)
    (λ args kwargs,
       match bind_params params defaults args kwargs with
       | Ok env => impl env
       | Raise e => Raise e
       end).

Definition arg_of (env : gmap string value) (p : string) : value :=
  default VNone (env !! p).

(** [lambda x, y: x > y], on integers. *)
Definition greater_than : pyfunc :=
  py_def "<lambda>" None ["x"; "y"] []
    (λ env, match arg_of env "x", arg_of env "y" with
            | VInt x, VInt y => Ok (VBool (y <? x)%Z)
            | _, _ => Raise TypeError
            end).

(** [def f(x, y=1): return (x, y)]. *)
Definition pair_default : pyfunc :=
  py_def "f" None ["x"; "y"] [VInt 1]
    (λ env, Ok (VTuple [arg_of env "x"; arg_of env "y"])).

(** [def greet(self, greeting): return (self, greeting)], with and without
    a docstring. *)
Definition greet_documented : pyfunc :=
  py_def "greet" (Some "Greet.") ["self"; "greeting"] []
    (λ env, Ok (VTuple [arg_of env "self"; arg_of env "greeting"])).

Definition greet : pyfunc :=
  py_def "greet" None ["self"; "greeting"] []
    (λ env, Ok (VTuple [arg_of env "self"; arg_of env "greeting"])).

(** A function with a variadic signature, [product], declared with starred
    positional and named parameters; it returns the pair of its positional
    arguments and of the named argument [scale]. *)
Definition variadic : pyfunc :=
  PyFunc "product" None false false
    (ArgSpec [] (Some "args") (Some "kwargs") [])
    (λ args kwargs, Ok (VTuple [VTuple args; arg_of kwargs "scale"])).

(** [def fail(x): raise ValueError(x)]. *)
Definition failing : pyfunc :=
  py_def "fail" None ["x"] [] (λ env, Raise (UserError (arg_of env "x"))).

Definition example_fenv (f : fid) : pyfunc :=
  match f with
  | 0 => greater_than
  | 1 => pair_default
  | 2 => greet_documented
  | 3 => greet
  | 4 => variadic
  | _ => failing
  end.

Definition empty_state : state := State ∅ [].

(** The state after [curry(f)] for a function of the table, and the
    wrapper it returns. *)
Definition wrap (fenv : fid → pyfunc) (c : callable) (st : state)
    : outcome value * state :=
  curry_class_call fenv [VCallable c] ∅ st.

(** The module after line 131, [curry = curry(curry)]: the public name is
    bound to the wrapper that the class call returns. *)
Definition module_init (fenv : fid → pyfunc) : outcome value * state :=
  wrap fenv CCurry empty_state.

(** Example states.  [st_greater]: after [curry(greater_than)], the wrapper
    is at location 1.  [st_greater_40]: after the wrapper has been called
    with 40; the partial application is at location 4. *)
Definition st_greater : state :=
  snd (wrap example_fenv (CFun 0) empty_state).

Definition st_greater_40 : state :=
  snd (invoke example_fenv (VObj 1) [VInt 40] ∅ st_greater).

(** [st_pair]: after [curry(f)] for [def f(x, y=1)]; wrapper at 1. *)
Definition st_pair : state :=
  snd (wrap example_fenv (CFun 1) empty_state).

(** An instance of a user class at location 0, without attributes.
    [st_greet]: the documented [greet] curried, wrapper at 2.
    [st_greet_1]: that wrapper called with 1, partial application at 5.
    [st_plain]: [greet] without docstring curried, wrapper at 2. *)
Definition st_instance : state := State {[ 0 := OInstance ∅ ]} [].

Definition st_greet : state :=
  snd (wrap example_fenv (CFun 2) st_instance).


Definition st_plain : state :=
  snd (wrap example_fenv (CFun 3) st_instance).

(** [st_count]: the class called with [product] and the count checker of
    threshold 3; wrapper at 1. *)
Definition st_count : state :=
  snd (curry_class_call example_fenv [VCallable (CFun 4)]
         {[ "evaluation_checker" := count_evaluation_checker 3 ]}
         empty_state).

(** [st_module]: the module after line 131; the public [curry] is the
    wrapper at 1. *)
Definition st_module : state := snd (module_init example_fenv).

(** [st_greet_named]: the documented [greet] wrapper called with the named
    argument [greeting]; the partial application is at 4 and its dictionary
    at 3.  [st_dictionary]: a dictionary with one binding, at 0. *)
Definition st_greet_named : state :=
  snd (invoke example_fenv (VObj 2) [] {[ "greeting" := VStr "hi" ]} st_greet).

Definition st_dictionary : state :=
  State {[ 0 := ODict {[ "y" := VInt 5 ]} ]} [].

(** The checker of the class docstring (line 49), a function of starred
    parameters that is true from three positional arguments on, in a
    function table with [product]; and the wrapper of [product] with this
    checker, at 1. *)
Definition more_than_two : pyfunc :=
  PyFunc "<lambda>" None false false
    (ArgSpec [] (Some "args") (Some "kwargs") [])
    (λ args kwargs, Ok (VBool (bool_decide (2 < length args)))).

Definition checker_fenv (f : fid) : pyfunc :=
  match f with
  | 0 => variadic
  | _ => more_than_two
  end.

Definition st_custom : state :=
  snd (curry_class_call checker_fenv [VCallable (CFun 0)]
         {[ "evaluation_checker" := VCallable (CFun 1) ]} empty_state).

(** A class and a bound method.  [py_class] is a class whose [__init__] is
    declared [def __init__(self, params...)]; calling the class binds the
    arguments to the parameters after [self], and the instance is
    represented by the value [impl] gives.  [py_bound_method] is [obj.name]
    for a method declared [def name(self, params...)]: the receiver is
    bound already, a call binds the arguments to the parameters after
    [self], and [inspect.getargspec] reports the declaration of the
    function under the method, [self] included. *)
Definition py_class (name : string) (doc : option string)
    (params : list string) (defaults : list value)
    (impl : gmap string value → outcome value) : pyfunc :=
  PyFunc name doc true false (ArgSpec ("self" :: params) None None defaults)
    (λ args kwargs,
       match bind_params params defaults args kwargs with
       | Ok env => impl env
       | Raise e => Raise e
       end).

Definition py_bound_method (name : string) (doc : option string)
    (params : list string) (defaults : list value)
    (impl : gmap string value → outcome value) : pyfunc :=
  PyFunc name doc false true (ArgSpec ("self" :: params) None None defaults)
    (λ args kwargs,
       match bind_params params defaults args kwargs with
       | Ok env => impl env
       | Raise e => Raise e
       end).

(** [account.add], for [def add(self, x, y): return x + y] in the class of
    [account]; and [class Point] with [def __init__(self, x, y)], an
    instance being represented by the pair of its fields. *)
Definition bound_add : pyfunc :=
  py_bound_method "add" None ["x"; "y"] []
    (λ env, match arg_of env "x", arg_of env "y" with
            | VInt x, VInt y => Ok (VInt (x + y))
            | _, _ => Raise TypeError
            end).

Definition point_class : pyfunc :=
  py_class "Point" None ["x"; "y"] []
    (λ env, Ok (VTuple [arg_of env "x"; arg_of env "y"])).

Definition method_fenv (f : fid) : pyfunc :=
  match f with
  | 0 => bound_add
  | _ => point_class
  end.

(** [st_method]: after [curry(account.add)]; wrapper at 1.  [st_method_2]:
    that wrapper called with 1 and then with 2.  [st_method_3]: the result
    called with 3. *)
Definition st_method : state :=
  snd (wrap method_fenv (CFun 0) empty_state).

Definition st_method_2 : state :=
  snd (invoke_all method_fenv (VObj 1) [([VInt 1], ∅); ([VInt 2], ∅)]
         st_method).

Definition st_method_3 : state :=
  snd (invoke_all method_fenv (VObj 1)
         [([VInt 1], ∅); ([VInt 2], ∅); ([VInt 3], ∅)] st_method).

(** [st_count_1]: the wrapper of [st_count] called with 1 and the named
    argument [scale = 2]; the partial application is at 3 and its
    dictionary at 2.  [st_fail]: after [curry(fail)]; wrapper at 1. *)
Definition st_count_1 : state :=
  snd (invoke example_fenv (VObj 1) [VInt 1] {[ "scale" := VInt 2 ]} st_count).

Definition st_fail : state :=
  snd (wrap example_fenv (CFun 5) empty_state).

(** ** Specification vocabulary *)

(** [wrapper_with fenv st l lk f ck acc d]: location [l] of [st] holds a
    curry object as the constructor builds it, wrapping callable [f] with
    checker [ck], with accumulated positional arguments [acc]; its
    [self.kwargs] is the dictionary at [lk], whose bindings are [d]. *)
Definition wrapper_with (fenv : fid → pyfunc) (st : state) (l lk : loc)
    (f ck : callable) (acc : list value) (d : gmap string value) : Prop :=
  heap st !! l =
    Some (OCurry (CurryObj (VCallable f) (VCallable ck) (VTuple acc)
                    (VObj lk) (VStr (callable_name fenv f))
                    (callable_doc fenv f)))
  ∧ heap st !! lk = Some (ODict d).

Definition wrapper_at (fenv : fid → pyfunc) (st : state) (l : loc)
    (f ck : callable) (acc : list value) (d : gmap string value) : Prop :=
  ∃ lk, wrapper_with fenv st l lk f ck acc d.

(** The state in which [__call__] runs the checker: the copy of the
    wrapper's dictionary, updated with the new named arguments, has been
    allocated. *)
Definition merged_state (st : state) (m : gmap string value) : state :=
  State (<[fresh (dom (heap st)) := ODict m]> (heap st)) (log st).

(** A computation that only allocates: every object of the state it starts
    in is still there, unchanged, in the state it ends in. *)
Definition grows {A} (m : M A) : Prop :=
  ∀ st r st', m st = (r, st') → heap st ⊆ heap st'.

(** The parameters of [__init__] are bound to [f], [c], [a] and [k]. *)
Definition binds (r : outcome (gmap string value)) (f c a k : value) : Prop :=
  match r with
  | Ok env =>
      env !! "function" = Some f ∧ env !! "evaluation_checker" = Some c
      ∧ env !! "args" = Some a ∧ env !! "kwargs" = Some k
  | Raise _ => False
  end.

(** What the class call does once its parameters are bound, for a wrapped
    callable [f]: an empty dictionary is allocated when [kwargs] is false,
    the arity checker is derived when [evaluation_checker] is false, and
    the new object is allocated. *)
Definition construct (fenv : fid → pyfunc) (f : callable) (c a kv : value)
    (st : state) : outcome value * state :=
  let checker :=
    if truthy (heap st) c then c else VCallable (CArity f) in
  let st1 :=
    if truthy (heap st) kv then st
    else State (<[fresh (dom (heap st)) := ODict ∅]> (heap st)) (log st) in
  let kw :=
    if truthy (heap st) kv then kv else VObj (fresh (dom (heap st))) in
  let l := fresh (dom (heap st1)) in
  (Ok (VObj l),
   State (<[l := OCurry (CurryObj (VCallable f) checker a kw
                           (VStr (callable_name fenv f))
                           (callable_doc fenv f))]> (heap st1))
         (log st1)).

(** The parameters still required after [p] positional arguments, for
    captured [function_info] and [function_args]: the remaining parameters
    without the last [length defaults] of them. *)
Definition needed_args (function_info : argspec) (function_args : list string)
    (p : nat) : list string :=
  let remaining := drop p function_args in
  take (length remaining - length (spec_defaults function_info)) remaining.

(** The decision of the arity checker, as a boolean. *)
Definition arity_enough (function_info : argspec)
    (function_args : list string) (p : nat) (keys : gset string) : bool :=
  let needed := needed_args function_info function_args p in
  match needed with
  | [] => true
  | _ :: _ => bool_decide (list_to_set needed ⊆ keys)
  end.

(** The callables other than the class [curry] compute a result from their
    arguments alone; a user function also leaves a log entry. *)
Definition pure_call (fenv : fid → pyfunc) (c : callable)
    (args : list value) (kwargs : gmap string value) : outcome value :=
  match c with
  | CFun f => fn_body (fenv f) args kwargs
  | CCurry => Raise OutOfModel
  | CArity c' =>
      Ok (VBool (arity_enough (getargspec fenv c') (function_args fenv c')
                   (length args) (dom kwargs)))
  | CCount count => Ok (VBool (count <=? Z.of_nat (length args))%Z)
  end.

Definition call_log (c : callable)
    (args : list value) (kwargs : gmap string value) : list call_event :=
  match c with
  | CFun f => [(f, args, kwargs)]
  | _ => []
  end.

(** Positional-only calls. *)
Definition positional (chunks : list (list value))
    : list (list value * gmap string value) :=
  map (λ a, (a, ∅)) chunks.

(** The named arguments accumulated by successive calls: each call's
    bindings are laid over those before it. *)
Definition overlay (d : gmap string value)
    (calls : list (list value * gmap string value)) : gmap string value :=
  foldl (λ m c, c.2 ∪ m) d calls.

Definition supplied (calls : list (list value * gmap string value))
    : list value :=
  concat (map fst calls).

(** The parameters of a callable in the words of the specification, not
    taken from the code of the checker.  [declared_params]: the parameters
    of the declaration, in order, without the implicit receiver for a
    constructor.  [call_params]: the parameters that a caller of the
    callable supplies, that is the declared ones without the receiver of a
    bound method, which Python supplies. *)
Definition declared_params (fenv : fid → pyfunc) (c : callable) : list string :=
  match c with
  | CFun f =>
      if fn_is_class (fenv f) then tail (spec_args (fn_spec (fenv f)))
      else spec_args (fn_spec (fenv f))
  | CCurry => init_params
  | CArity _ => []
  | CCount _ => []
  end.

Definition call_params (fenv : fid → pyfunc) (c : callable) : list string :=
  match c with
  | CFun f =>
      if fn_is_bound_method (fenv f) then tail (declared_params fenv c)
      else declared_params fenv c
  | _ => declared_params fenv c
  end.



(** ** Parameter binding of the class call *)

Lemma binds_positional (f c a k : value) :
  binds (bind_params init_params init_defaults [f; c; a; k] ∅) f c a k.
Proof. vm_compute. auto. Qed.

Lemma binds_function_only (f : value) :
  binds (bind_params init_params init_defaults [f] ∅) f VNone (VTuple []) VNone.
Proof. vm_compute. auto. Qed.

Lemma binds_with_checker (f x : value) :
  binds (bind_params init_params init_defaults [f]
           {[ "evaluation_checker" := x ]}) f x (VTuple []) VNone.
Proof. vm_compute. auto. Qed.

Lemma binds_bound (f c a k : value) :
  binds (bind_params init_params init_defaults [f; c]
           {[ "args" := a; "kwargs" := k ]}) f c a k.
Proof. vm_compute. auto. Qed.

(** Named arguments without the name [self], the receiver of [__call__]. *)
Lemma no_self_empty : "self" ∉ dom (∅ : gmap string value).
Proof. rewrite dom_empty_L. apply not_elem_of_empty. Qed.

Lemma no_self_singleton (k : string) (v : value) :
  k ≠ "self" → "self" ∉ dom ({[ k := v ]} : gmap string value).
Proof.
  intros Hk. rewrite dom_singleton_L. intros H%elem_of_singleton.
  by apply Hk.
Qed.

Lemma no_self_union (k1 k2 : gmap string value) :
  "self" ∉ dom k1 → "self" ∉ dom k2 → "self" ∉ dom (k1 ∪ k2).
Proof.
  intros H1 H2. rewrite dom_union_L. intros [H|H]%elem_of_union; auto.
Qed.

Ltac no_self :=
  first [ assumption
        | apply no_self_empty
        | apply no_self_singleton; discriminate ].

Section Properties.

Variable fenv : fid → pyfunc.

Lemma fresh_heap (h : gmap loc obj) : h !! fresh (dom h) = None.
Proof. apply not_elem_of_dom, is_fresh. Qed.

Lemma class_call_construct args kwargs f c a kv st :
  binds (bind_params init_params init_defaults args kwargs)
        (VCallable f) c a kv →
  curry_class_call fenv args kwargs st = construct fenv f c a kv st.
Proof.
  unfold curry_class_call, binds, bind, lift.
  destruct (bind_params _ _ _ _) as [env|e]; [|done].
  intros (Hf & Hc & Ha & Hk). rewrite Hf, Hc, Ha, Hk. simpl.
  unfold __init__, construct, bind, get_heap, ret, alloc. simpl.
  destruct (truthy (heap st) c); simpl;
    destruct (truthy (heap st) kv); simpl; reflexivity.
Qed.


Lemma wrapper_with_mono st st' l lk f ck acc d :
  heap st ⊆ heap st' →
  wrapper_with fenv st l lk f ck acc d → wrapper_with fenv st' l lk f ck acc d.
Proof.
  intros Hsub [Hl Hk]. split; eapply lookup_weaken; eauto.
Qed.

Lemma truthy_dict h l m :
  h !! l = Some (ODict m) → truthy h (VObj l) = false → m = ∅.
Proof.
  simpl. intros ->. rewrite negb_false_iff, bool_decide_eq_true.
  apply dom_empty_iff_L.
Qed.

(** The object built for a checker that is a callable and a dictionary of
    named arguments is a wrapper with these, at a new location. *)
Lemma construct_wrapper f ck acc l1 m st :
  heap st !! l1 = Some (ODict m) →
  ∃ l' lk' st',
    construct fenv f (VCallable ck) (VTuple acc) (VObj l1) st
      = (Ok (VObj l'), st')
    ∧ wrapper_with fenv st' l' lk' f ck acc m
    ∧ heap st ⊆ heap st' ∧ log st' = log st
    ∧ (l' ∉ dom (heap st)) ∧ (lk' = l1 ∨ lk' ∉ dom (heap st)).
Proof.
  intros Hd. unfold construct.
  change (truthy (heap st) (VCallable ck)) with true. cbv iota.
  destruct (truthy (heap st) (VObj l1)) eqn:Ht.
  - eexists _, l1, _. split; [reflexivity|]. unfold wrapper_with; cbn [heap log].
    pose proof (fresh_heap (heap st)) as Hfr.
    split; [|split; [|split; [|split]]].
    + split.
      * apply lookup_insert_eq.
      * rewrite lookup_insert_ne; [done|]. intros E. congruence.
    + by apply insert_subseteq.
    + done.
    + apply is_fresh.
    + by left.
  - apply (truthy_dict _ _ _ Hd) in Ht. subst m.
    set (l0 := fresh (dom (heap st))).
    eexists _, l0, _. split; [reflexivity|]. unfold wrapper_with; cbn [heap log].
    pose proof (fresh_heap (heap st)) as Hfr. fold l0 in Hfr.
    set (h1 := <[l0:=ODict ∅]> (heap st)).
    pose proof (fresh_heap h1) as Hfr1.
    assert (fresh (dom h1) ≠ l0) as Hne.
    { intros E. rewrite E in Hfr1. unfold h1 in Hfr1.
      by rewrite lookup_insert_eq in Hfr1. }
    split; [|split; [|split; [|split]]].
    + split.
      * apply lookup_insert_eq.
      * rewrite lookup_insert_ne by done. apply lookup_insert_eq.
    + etrans; [|by apply insert_subseteq]. by apply insert_subseteq.
    + done.
    + apply not_elem_of_dom. unfold h1 in Hfr1.
      rewrite lookup_insert_ne in Hfr1 by done. done.
    + right. apply is_fresh.
Qed.

(** The constructor called without accumulated named arguments, for a
    checker value [c] that stands for the callable [ck]. *)
Lemma construct_empty f c ck st :
  (if truthy (heap st) c then c else VCallable (CArity f)) = VCallable ck →
  ∃ l' lk' st',
    construct fenv f c (VTuple []) VNone st = (Ok (VObj l'), st')
    ∧ wrapper_with fenv st' l' lk' f ck [] ∅
    ∧ heap st ⊆ heap st' ∧ log st' = log st
    ∧ (l' ∉ dom (heap st)) ∧ (lk' ∉ dom (heap st)).
Proof.
  intros Hc. unfold construct. rewrite Hc. cbn [truthy].
  set (l0 := fresh (dom (heap st))).
  pose proof (fresh_heap (heap st)) as Hfr. fold l0 in Hfr.
  set (h1 := <[l0:=ODict ∅]> (heap st)).
  pose proof (fresh_heap h1) as Hfr1.
  assert (fresh (dom h1) ≠ l0) as Hne.
  { intros E. rewrite E in Hfr1. unfold h1 in Hfr1.
    by rewrite lookup_insert_eq in Hfr1. }
  eexists _, l0, _. split; [reflexivity|]. unfold wrapper_with; cbn [heap log].
  split; [|split; [|split; [|split]]].
  - split.
    + apply lookup_insert_eq.
    + rewrite lookup_insert_ne by done. apply lookup_insert_eq.
  - etrans; [|by apply insert_subseteq]. by apply insert_subseteq.
  - done.
  - apply not_elem_of_dom. unfold h1 in Hfr1.
    rewrite lookup_insert_ne in Hfr1 by done. done.
  - apply is_fresh.
Qed.

(** ** The checkers and user functions as functions of their arguments *)

Lemma evaluation_checker_eq info fa args kwargs st :
  evaluation_checker info fa args kwargs st
    = (Ok (VBool (arity_enough info fa (length args) (dom kwargs))), st).
Proof.
  unfold evaluation_checker, arity_enough, needed_args, bind, discard, ret.
  assert (∀ b : bool, (if b then (λ st0 : state, (Ok (), st0))
                       else (λ st0 : state, (Ok (), st0))) st = (Ok (), st))
    as Hif by (by intros []).
  destruct (spec_keywords info); [|rewrite Hif];
    (destruct (spec_defaults info) as [|v vs] eqn:Hdef;
     [ simpl length; rewrite Nat.sub_0_r, firstn_all | ]; reflexivity).
Qed.

Lemma call_pure c args kwargs st :
  c ≠ CCurry →
  call_callable fenv c args kwargs st
    = (pure_call fenv c args kwargs,
       State (heap st) (log st ++ call_log c args kwargs)).
Proof.
  destruct st as [h lg]. destruct c; simpl; intros Hc; try done.
  - rewrite evaluation_checker_eq. simpl. by rewrite app_nil_r.
  - unfold count_function, ret. by rewrite app_nil_r.
Qed.


(** ** Steps of the monad *)

Lemma bind_ok {A B} (m : M A) (k : A → M B) st a st' :
  m st = (Ok a, st') → bind m k st = k a st'.
Proof. unfold bind. by intros ->. Qed.

Lemma bind_raise {A B} (m : M A) (k : A → M B) st e st' :
  m st = (Raise e, st') → bind m k st = (Raise e, st').
Proof. unfold bind. by intros ->. Qed.

Lemma bind_assoc {A B C} (m : M A) (k : A → M B) (k' : B → M C) st :
  bind (bind m k) k' st = bind m (λ a, bind (k a) k') st.
Proof. unfold bind. by destruct (m st) as [[a|e] st']. Qed.

Lemma bind_ret_r {A} (m : M A) st : bind m ret st = m st.
Proof. unfold bind, ret. by destruct (m st) as [[a|e] st']. Qed.

Lemma read_curry_eq st l o :
  heap st !! l = Some (OCurry o) → read_curry l st = (Ok o, st).
Proof. intros H. unfold read_curry, bind, get_heap. by rewrite H. Qed.

Lemma dict_copy_eq st lk d :
  heap st !! lk = Some (ODict d) →
  dict_copy (VObj lk) st
    = (Ok (fresh (dom (heap st))),
       State (<[fresh (dom (heap st)) := ODict d]> (heap st)) (log st)).
Proof. intros H. unfold dict_copy, bind, get_heap. by rewrite H. Qed.

Lemma dict_update_eq st l m kwargs :
  heap st !! l = Some (ODict m) →
  dict_update l kwargs st
    = (Ok (), State (<[l := ODict (kwargs ∪ m)]> (heap st)) (log st)).
Proof. intros H. unfold dict_update, bind, get_heap. by rewrite H. Qed.

Lemma dict_items_eq st l m :
  heap st !! l = Some (ODict m) → dict_items l st = (Ok m, st).
Proof. intros H. unfold dict_items, bind, get_heap. by rewrite H. Qed.

(** ** One invocation *)

Lemma call_unfold st l lk f ck acc d args kwargs :
  wrapper_with fenv st l lk f ck acc d →
  "self" ∉ dom kwargs →
  __call__ fenv l args kwargs st =
    let st0 := merged_state st (kwargs ∪ d) in
    match call_callable fenv ck (acc ++ args) (kwargs ∪ d) st0 with
    | (Ok enough, st1) =>
        if truthy (heap st1) enough then
          call_callable fenv f (acc ++ args) (kwargs ∪ d) st1
        else
          construct fenv f (VCallable ck) (VTuple (acc ++ args))
            (VObj (fresh (dom (heap st)))) st1
    | (Raise e, st1) => (Raise e, st1)
    end.
Proof.
  intros [Hl Hk] Hself. unfold __call__.
  rewrite bool_decide_eq_false_2 by exact Hself.
  erewrite bind_ok by (by apply read_curry_eq).
  cbn [self_args self_kwargs self_function self_evaluation_checker].
  erewrite bind_ok by reflexivity.
  erewrite bind_ok by (by apply dict_copy_eq).
  erewrite bind_ok by (apply dict_update_eq, lookup_insert_eq).
  cbn [heap log]. rewrite insert_insert_eq.
  erewrite bind_ok by reflexivity.
  erewrite bind_ok by (apply dict_items_eq, lookup_insert_eq).
  cbv zeta. unfold merged_state. cbn [call_value].
  unfold bind at 1.
  destruct (call_callable fenv ck _ _ _) as [[enough|e] st1]; [|done].
  erewrite bind_ok by reflexivity.
  destruct (truthy (heap st1) enough); [done|].
  apply class_call_construct, binds_positional.
Qed.

(** A named argument [self] collides with the receiver of [__call__]. *)
Lemma call_named_self st l args kwargs :
  "self" ∈ dom kwargs →
  __call__ fenv l args kwargs st = (Raise TypeError, st).
Proof. intros H. unfold __call__. by rewrite bool_decide_eq_true_2. Qed.

Lemma merged_state_mono st m : heap st ⊆ heap (merged_state st m).
Proof. apply insert_subseteq, fresh_heap. Qed.

(** Insufficient arguments: a new wrapper at a new location, with a
    dictionary of its own. *)
Lemma call_partial st l lk f ck acc d args kwargs v :
  wrapper_with fenv st l lk f ck acc d →
  ck ≠ CCurry →
  pure_call fenv ck (acc ++ args) (kwargs ∪ d) = Ok v →
  (∀ h, truthy h v = false) →
  "self" ∉ dom kwargs →
  ∃ l' lk' st',
    __call__ fenv l args kwargs st = (Ok (VObj l'), st')
    ∧ wrapper_with fenv st' l' lk' f ck (acc ++ args) (kwargs ∪ d)
    ∧ heap st ⊆ heap st'
    ∧ log st' = log st ++ call_log ck (acc ++ args) (kwargs ∪ d)
    ∧ (l' ∉ dom (heap st)) ∧ (lk' ∉ dom (heap st)).
Proof.
  intros Hw Hck Hv Hfalse Hself.
  rewrite (call_unfold _ _ _ _ _ _ _ _ _ Hw Hself). cbv zeta.
  rewrite call_pure by done. rewrite Hv, Hfalse.
  set (st1 := State _ _).
  destruct (construct_wrapper f ck (acc ++ args) (fresh (dom (heap st)))
              (kwargs ∪ d) st1) as (l' & lk' & st' & E & Hw' & Hsub & Hlog & Hl' & Hlk').
  { apply lookup_insert_eq. }
  assert (heap st ⊆ heap st1) as Hsub0 by apply merged_state_mono.
  exists l', lk', st'. split; [exact E|]. split; [exact Hw'|].
  split; [by etrans|]. split; [by rewrite Hlog|].
  split.
  - intros Hin. apply Hl'. eapply subseteq_dom in Hsub0. by apply Hsub0.
  - destruct Hlk' as [->|Hlk']; [apply is_fresh|].
    intros Hin. apply Hlk'. eapply subseteq_dom in Hsub0. by apply Hsub0.
Qed.

(** Sufficient arguments: the wrapped callable is called with the merged
    arguments, and its outcome is the outcome of the invocation. *)
Lemma call_final st l lk f ck acc d args kwargs v :
  wrapper_with fenv st l lk f ck acc d →
  ck ≠ CCurry → f ≠ CCurry →
  pure_call fenv ck (acc ++ args) (kwargs ∪ d) = Ok v →
  (∀ h, truthy h v = true) →
  "self" ∉ dom kwargs →
  ∃ st',
    __call__ fenv l args kwargs st
      = (pure_call fenv f (acc ++ args) (kwargs ∪ d), st')
    ∧ heap st ⊆ heap st'
    ∧ log st' = log st ++ call_log ck (acc ++ args) (kwargs ∪ d)
                       ++ call_log f (acc ++ args) (kwargs ∪ d).
Proof.
  intros Hw Hck Hf Hv Htrue Hself.
  rewrite (call_unfold _ _ _ _ _ _ _ _ _ Hw Hself). cbv zeta.
  rewrite call_pure by done. rewrite Hv, Htrue.
  rewrite call_pure by done. cbn [heap log].
  eexists. split; [reflexivity|]. cbn [heap log].
  split; [apply merged_state_mono|]. by rewrite app_assoc.
Qed.

Lemma invoke_wrapper st l lk f ck acc d args kwargs :
  wrapper_with fenv st l lk f ck acc d →
  invoke fenv (VObj l) args kwargs st = __call__ fenv l args kwargs st.
Proof.
  intros [Hl _]. unfold invoke, bind, get_heap. by rewrite Hl.
Qed.


(** ** Computations that only allocate *)

Lemma grows_ret {A} (a : A) : grows (ret a).
Proof. intros st r st' [= _ <-]. done. Qed.

Lemma grows_raise {A} e : grows (raise (A:=A) e).
Proof. intros st r st' [= _ <-]. done. Qed.

Lemma grows_lift {A} (o : outcome A) : grows (lift o).
Proof. intros st r st' [= _ <-]. done. Qed.

Lemma grows_get_heap : grows get_heap.
Proof. intros st r st' [= _ <-]. done. Qed.

Lemma grows_alloc o : grows (alloc o).
Proof.
  intros st r st' [= _ <-]. cbn [heap]. apply insert_subseteq, fresh_heap.
Qed.

Lemma grows_record_call e : grows (record_call e).
Proof. intros st r st' [= _ <-]. done. Qed.

Lemma grows_bind {A B} (m : M A) (k : A → M B) :
  grows m → (∀ a, grows (k a)) → grows (bind m k).
Proof.
  intros Hm Hk st r st'. unfold bind.
  destruct (m st) as [[a|e] st1] eqn:E.
  - intros E'. etrans; [by eapply Hm | by eapply Hk].
  - intros [= _ <-]. by eapply Hm.
Qed.

Lemma grows_if {A} (b : bool) (m1 m2 : M A) :
  grows m1 → grows m2 → grows (if b then m1 else m2).
Proof. by destruct b. Qed.

Ltac grows_step :=
  first
    [ apply grows_ret | apply grows_raise | apply grows_lift
    | apply grows_get_heap | apply grows_alloc | apply grows_record_call
    | apply grows_if
    | apply grows_bind; [|intros ?] ].

Lemma grows_class_call args kwargs : grows (curry_class_call fenv args kwargs).
Proof.
  unfold curry_class_call, __init__.
  repeat grows_step.
  - unfold arity_evaluation_checker. destruct (default _ _); grows_step.
  - unfold getattr_name. destruct (default _ _); grows_step.
  - unfold getattr_doc. destruct (default _ _); grows_step.
Qed.

Lemma grows_call_callable c args kwargs :
  grows (call_callable fenv c args kwargs).
Proof.
  destruct c; cbn [call_callable].
  - repeat grows_step.
  - apply grows_class_call.
  - intros st r st'. rewrite evaluation_checker_eq. by intros [= _ <-].
  - unfold count_function. grows_step.
Qed.





(** ** Successive invocations *)

Lemma invoke_all_app v xs ys st :
  invoke_all fenv v (xs ++ ys) st
    = bind (invoke_all fenv v xs) (λ r, invoke_all fenv r ys) st.
Proof.
  revert v st. induction xs as [|[a k] xs IH]; intros v st; [done|].
  cbn [app invoke_all]. rewrite bind_assoc. unfold bind at 1 2.
  destruct (invoke fenv v a k st) as [[r|e] st1]; [apply IH|done].
Qed.

Lemma invoke_all_single v args kwargs st :
  invoke_all fenv v [(args, kwargs)] st = invoke fenv v args kwargs st.
Proof. cbn [invoke_all]. apply bind_ret_r. Qed.

Lemma wrap_wrapper f st :
  ∃ l lk st0,
    wrap fenv f st = (Ok (VObj l), st0)
    ∧ wrapper_with fenv st0 l lk f (CArity f) [] ∅
    ∧ heap st ⊆ heap st0 ∧ log st0 = log st
    ∧ (l ∉ dom (heap st)) ∧ (lk ∉ dom (heap st)).
Proof.
  unfold wrap.
  rewrite (class_call_construct _ _ f VNone (VTuple []) VNone)
    by apply binds_function_only.
  by apply construct_empty.
Qed.

(** ** The arity checker on positional arguments *)

Lemma arity_positional info fa p :
  spec_defaults info = [] →
  arity_enough info fa p ∅ = bool_decide (length fa ≤ p)%nat.
Proof.
  intros Hdef. unfold arity_enough, needed_args. rewrite Hdef.
  cbn [length]. rewrite Nat.sub_0_r, firstn_all.
  destruct (drop p fa) as [|x xs] eqn:Hdrop.
  - symmetry. apply bool_decide_eq_true.
    apply (f_equal length) in Hdrop. rewrite length_drop in Hdrop.
    simpl in Hdrop. lia.
  - assert (p < length fa).
    { apply (f_equal length) in Hdrop. rewrite length_drop in Hdrop.
      simpl in Hdrop. lia. }
    rewrite (bool_decide_eq_false_2 (length fa ≤ p)%nat) by lia.
    apply bool_decide_eq_false. set_solver.
Qed.

Section Arity.

Variable g : fid.
Hypothesis no_defaults : spec_defaults (getargspec fenv (CFun g)) = [].

Let n := length (function_args fenv (CFun g)).

Lemma arity_partial_step st l lk acc a :
  wrapper_with fenv st l lk (CFun g) (CArity (CFun g)) acc ∅ →
  length acc + length a < n →
  ∃ l' lk' st',
    invoke fenv (VObj l) a ∅ st = (Ok (VObj l'), st')
    ∧ wrapper_with fenv st' l' lk' (CFun g) (CArity (CFun g)) (acc ++ a) ∅
    ∧ log st' = log st
    ∧ (l' ∉ dom (heap st)).
Proof.
  intros Hw Hlt.
  destruct (call_partial st l lk (CFun g) (CArity (CFun g)) acc ∅ a ∅
              (VBool false) Hw)
    as (l1 & lk1 & st1 & E & Hw1 & _ & Hlog1 & Hl1 & _); [done| |done|no_self|].
  { cbn [pure_call]. rewrite (left_id_L ∅ (∪)). rewrite dom_empty_L.
    rewrite arity_positional by done.
    rewrite bool_decide_eq_false_2; [done|].
    rewrite length_app. fold n. lia. }
  rewrite (left_id_L ∅ (∪)) in Hw1, Hlog1.
  exists l1, lk1, st1. rewrite (invoke_wrapper _ _ _ _ _ _ _ _ _ Hw).
  split; [exact E|]. split; [exact Hw1|]. split; [|exact Hl1].
  rewrite Hlog1. cbn. by rewrite app_nil_r.
Qed.

Lemma arity_partial_calls chunks : ∀ st l lk acc,
  wrapper_with fenv st l lk (CFun g) (CArity (CFun g)) acc ∅ →
  length acc + length (concat chunks) < n →
  ∃ l' lk' st',
    invoke_all fenv (VObj l) (positional chunks) st = (Ok (VObj l'), st')
    ∧ wrapper_with fenv st' l' lk' (CFun g) (CArity (CFun g))
        (acc ++ concat chunks) ∅
    ∧ log st' = log st.
Proof.
  induction chunks as [|a chunks IH]; intros st l lk acc Hw Hlt.
  - exists l, lk, st. cbn. rewrite app_nil_r. done.
  - cbn [positional map invoke_all concat] in *.
    rewrite length_app in Hlt.
    destruct (arity_partial_step st l lk acc a Hw)
      as (l1 & lk1 & st1 & E & Hw1 & Hlog1 & _); [lia|].
    erewrite bind_ok by exact E.
    destruct (IH st1 l1 lk1 (acc ++ a) Hw1) as (l' & lk' & st' & E' & Hw' & Hlog').
    { rewrite length_app. lia. }
    exists l', lk', st'. split; [exact E'|].
    rewrite <- app_assoc in Hw'. split; [exact Hw'|].
    by rewrite Hlog', Hlog1.
Qed.

Lemma arity_last_call st l lk acc last :
  wrapper_with fenv st l lk (CFun g) (CArity (CFun g)) acc ∅ →
  n ≤ length acc + length last →
  ∃ st',
    invoke fenv (VObj l) last ∅ st
      = (fn_body (fenv g) (acc ++ last) ∅, st')
    ∧ log st' = log st ++ [(g, acc ++ last, ∅)].
Proof.
  intros Hw Hge.
  destruct (call_final st l lk (CFun g) (CArity (CFun g)) acc ∅ last ∅
              (VBool true) Hw)
    as (st' & E & _ & Hlog); [done|done| |done|no_self|].
  { cbn [pure_call]. rewrite (left_id_L ∅ (∪)). rewrite dom_empty_L.
    rewrite arity_positional by done.
    rewrite bool_decide_eq_true_2; [done|].
    rewrite length_app. fold n. lia. }
  rewrite (left_id_L ∅ (∪)) in E, Hlog.
  exists st'. rewrite (invoke_wrapper _ _ _ _ _ _ _ _ _ Hw).
  split; [exact E|]. rewrite Hlog. done.
Qed.

End Arity.

(** The parameters the closure captures are the declared ones; they are
    those a caller supplies unless the callable is a bound method. *)
Lemma function_args_declared c :
  function_args fenv c = declared_params fenv c.
Proof.
  destruct c as [f| | |]; unfold function_args; cbn; reflexivity.
Qed.

Lemma function_args_call_params g :
  fn_is_bound_method (fenv g) = false →
  function_args fenv (CFun g) = call_params fenv (CFun g).
Proof.
  intros Hb. rewrite function_args_declared. unfold call_params.
  by rewrite Hb.
Qed.

(** X18.  A wrapper [curry(f)] of a function or class [f], not a method
    already bound to its receiver, whose callers supply [n] parameters,
    none with a default, called successively with positional arguments.
    As long as fewer than [n] arguments have been supplied in all, every
    call is made on a wrapper and returns a wrapper at a new location,
    holding the arguments supplied so far in order, and [f] has not been
    called.  When a call brings the total to exactly [n], [f] is called
    once, with the arguments in the order they were supplied, and its
    outcome is the outcome of that call; for [n = 0] this is the first
    call, made without arguments. *)
Theorem curry_arity_split g st :
  fn_is_bound_method (fenv g) = false →
  spec_defaults (getargspec fenv (CFun g)) = [] →
  let n := length (call_params fenv (CFun g)) in
  ∃ l st0,
    wrap fenv (CFun g) st = (Ok (VObj l), st0)
    ∧ (∀ chunks j a,
         length (concat chunks) < n →
         chunks !! j = Some a →
         ∃ lj stj l' st',
           invoke_all fenv (VObj l) (positional (take j chunks)) st0
             = (Ok (VObj lj), stj)
           ∧ wrapper_at fenv stj lj (CFun g) (CArity (CFun g))
               (concat (take j chunks)) ∅
           ∧ invoke fenv (VObj lj) a ∅ stj = (Ok (VObj l'), st')
           ∧ wrapper_at fenv st' l' (CFun g) (CArity (CFun g))
               (concat (take j chunks) ++ a) ∅
           ∧ (l' ∉ dom (heap stj))
           ∧ log st' = log st)
    ∧ (∀ init last,
         init = [] ∨ length (concat init) < n →
         length (concat init) + length last = n →
         ∃ st',
           invoke_all fenv (VObj l) (positional (init ++ [last])) st0
             = (fn_body (fenv g) (concat init ++ last) ∅, st')
           ∧ log st' = log st ++ [(g, concat init ++ last, ∅)]).
Proof.
  intros Hbound Hdef n.
  destruct (wrap_wrapper (CFun g) st)
    as (l & lk & st0 & E & Hw & _ & Hlog & _).
  exists l, st0. split; [exact E|].
  unfold n. rewrite <- (function_args_call_params g Hbound). clear n.
  split.
  - intros chunks j a Hlt Hj.
    assert (length (concat (take j chunks)) + length a
            ≤ length (concat chunks)) as Hle.
    { rewrite <- (take_drop_middle chunks j a Hj) at 2.
      rewrite concat_app, length_app. cbn [concat].
      rewrite length_app. lia. }
    destruct (arity_partial_calls g Hdef (take j chunks) st0 l lk [] Hw)
      as (lj & lkj & stj & Ej & Hwj & Hlogj); [simpl; lia|].
    cbn [app] in Hwj.
    destruct (arity_partial_step g Hdef stj lj lkj _ a Hwj)
      as (l' & lk' & st' & E' & Hw' & Hlog' & Hl'); [lia|].
    exists lj, stj, l', st'. split; [exact Ej|]. split; [by exists lkj|].
    split; [exact E'|]. split; [by exists lk'|]. split; [exact Hl'|].
    congruence.
  - intros init last Hinit Htotal.
    unfold positional. rewrite map_app. cbn [map].
    rewrite invoke_all_app.
    destruct Hinit as [->|Hinit].
    + cbn [map]. erewrite bind_ok by reflexivity.
      rewrite invoke_all_single.
      destruct (arity_last_call g Hdef st0 l lk [] last Hw)
        as (st' & E' & Hlog'); [simpl in *; lia|].
      exists st'. split; [exact E'|cbn in *; congruence].
    + destruct (arity_partial_calls g Hdef init st0 l lk [] Hw)
        as (l' & lk' & st' & E' & Hw' & Hlog'); [simpl; lia|].
      fold (positional init). erewrite bind_ok by exact E'.
      rewrite invoke_all_single.
      destruct (arity_last_call g Hdef st' l' lk' ([] ++ concat init) last Hw')
        as (st'' & E'' & Hlog''); [simpl in *; lia|].
      exists st''. cbn [app] in *. split; [exact E''|congruence].
Qed.

(** C2, as amended.  An invocation of a wrapper whose named arguments do
    not use the name [self] forms the merged positional arguments (the
    accumulated ones followed by the new ones) and the merged named
    arguments (the accumulated bindings overlaid with the new ones, which
    win on a shared name), runs the checker on exactly these, and then
    either calls the wrapped callable with them, when the checker's result
    is true, or returns a new wrapper that carries them.  An invocation
    with a named argument [self] raises [TypeError] and leaves the state
    as it is. *)
Theorem call_merges_arguments st l f ck acc d args kwargs :
  wrapper_at fenv st l f ck acc d →
  let merged_args := acc ++ args in
  let merged_kwargs := kwargs ∪ d in
  (∀ k, merged_kwargs !! k
        = match kwargs !! k with Some v => Some v | None => d !! k end)
  ∧ ("self" ∈ dom kwargs →
     __call__ fenv l args kwargs st = (Raise TypeError, st))
  ∧ ("self" ∉ dom kwargs →
     match call_callable fenv ck merged_args merged_kwargs
             (merged_state st merged_kwargs) with
     | (Ok enough, st1) =>
         if truthy (heap st1) enough then
           __call__ fenv l args kwargs st
             = call_callable fenv f merged_args merged_kwargs st1
         else
           ∃ l' st',
             __call__ fenv l args kwargs st = (Ok (VObj l'), st')
             ∧ wrapper_at fenv st' l' f ck merged_args merged_kwargs
             ∧ l' ∉ dom (heap st)
     | (Raise e, st1) => __call__ fenv l args kwargs st = (Raise e, st1)
     end).
Proof.
  intros [lk Hw] merged_args merged_kwargs. split; [|split].
  - intros k. unfold merged_kwargs. rewrite lookup_union.
    destruct (kwargs !! k), (d !! k); reflexivity.
  - apply call_named_self.
  - intros Hself.
    rewrite (call_unfold _ _ _ _ _ _ _ _ _ Hw) by no_self. cbv zeta.
    fold merged_args merged_kwargs.
    destruct (call_callable fenv ck merged_args merged_kwargs
                (merged_state st merged_kwargs)) as [[enough|e] st1] eqn:E;
      [|reflexivity].
    destruct (truthy (heap st1) enough); [reflexivity|].
    apply grows_call_callable in E.
    destruct (construct_wrapper f ck merged_args (fresh (dom (heap st)))
                merged_kwargs st1)
      as (l' & lk' & st' & E' & Hw' & _ & _ & Hl' & _).
    { eapply lookup_weaken; [|exact E]. apply lookup_insert_eq. }
    exists l', st'. split; [exact E'|]. split; [by exists lk'|].
    intros Hin. apply Hl'.
    pose proof (merged_state_mono st merged_kwargs) as Hsub.
    eapply subseteq_dom in Hsub, E. by apply E, Hsub.
Qed.

(** C9.  A final evaluation is an invocation that Python binds to
    [__call__] (no named argument takes the name of the receiver, [self])
    and in which the checker's result on the merged arguments is true.  It
    is the call of the wrapped callable on the merged arguments and nothing
    else: its outcome is that call's outcome, the value it returns or the
    exception it raises, as it is, and it raises an exception exactly when
    that call does.  A wrapped user function is called once. *)
Theorem call_propagates_outcome st l f ck acc d args kwargs enough st1 :
  wrapper_at fenv st l f ck acc d →
  "self" ∉ dom kwargs →
  call_callable fenv ck (acc ++ args) (kwargs ∪ d)
    (merged_state st (kwargs ∪ d)) = (Ok enough, st1) →
  truthy (heap st1) enough = true →
  let underlying := call_callable fenv f (acc ++ args) (kwargs ∪ d) st1 in
  __call__ fenv l args kwargs st = underlying
  ∧ (∀ e, fst (__call__ fenv l args kwargs st) = Raise e
          ↔ fst underlying = Raise e)
  ∧ (∀ g, f = CFun g →
       underlying
         = (fn_body (fenv g) (acc ++ args) (kwargs ∪ d),
            State (heap st1) (log st1 ++ [(g, acc ++ args, kwargs ∪ d)]))).
Proof.
  intros [lk Hw] Hself Hck Htrue underlying.
  assert (__call__ fenv l args kwargs st = underlying) as E.
  { rewrite (call_unfold _ _ _ _ _ _ _ _ _ Hw) by no_self. cbv zeta.
    by rewrite Hck, Htrue. }
  rewrite E. split; [done|]. split; [done|].
  intros g ->. unfold underlying. by rewrite call_pure.
Qed.



(** ** The count checker *)

Lemma overlay_snoc d calls c : overlay d (calls ++ [c]) = c.2 ∪ overlay d calls.
Proof. unfold overlay. by rewrite foldl_app. Qed.

Lemma supplied_snoc calls c : supplied (calls ++ [c]) = supplied calls ++ c.1.
Proof.
  unfold supplied. rewrite map_app, concat_app. cbn. by rewrite app_nil_r.
Qed.

Lemma overlay_dom d calls :
  dom d ⊆ dom (overlay d calls)
  ∧ ∀ c, c ∈ calls → dom c.2 ⊆ dom (overlay d calls).
Proof.
  induction calls as [|c0 calls IH] using rev_ind.
  - split; [done|]. intros c Hc. by apply elem_of_nil in Hc.
  - destruct IH as [IH1 IH2]. rewrite overlay_snoc, dom_union_L. split.
    + set_solver.
    + intros c [Hc|Hc%list_elem_of_singleton]%elem_of_app.
      * specialize (IH2 c Hc). set_solver.
      * subst. set_solver.
Qed.

Lemma count_partial_calls g count calls : ∀ st l lk acc d,
  wrapper_with fenv st l lk (CFun g) (CCount count) acc d →
  (∀ c, c ∈ calls → "self" ∉ dom c.2) →
  (Z.of_nat (length acc + length (supplied calls)) < count)%Z →
  ∃ l' lk' st',
    invoke_all fenv (VObj l) calls st = (Ok (VObj l'), st')
    ∧ wrapper_with fenv st' l' lk' (CFun g) (CCount count)
        (acc ++ supplied calls) (overlay d calls)
    ∧ log st' = log st.
Proof.
  induction calls as [|[a k] calls IH]; intros st l lk acc d Hw Hself Hlt.
  - exists l, lk, st. cbn. rewrite app_nil_r. done.
  - unfold supplied in Hlt. cbn [map concat fst] in Hlt.
    fold (supplied calls) in Hlt. rewrite length_app in Hlt.
    destruct (call_partial st l lk (CFun g) (CCount count) acc d a k
                (VBool false) Hw)
      as (l1 & lk1 & st1 & E & Hw1 & _ & Hlog1 & _); [done| |done| |].
    { cbn [pure_call]. do 2 f_equal. apply Z.leb_gt.
      rewrite length_app. lia. }
    { apply (Hself (a, k)). left. }
    cbn [invoke_all].
    erewrite bind_ok
      by (rewrite (invoke_wrapper _ _ _ _ _ _ _ _ _ Hw); exact E).
    destruct (IH st1 l1 lk1 (acc ++ a) (k ∪ d) Hw1)
      as (l' & lk' & st' & E' & Hw' & Hlog').
    { intros c Hc. apply Hself. by right. }
    { rewrite length_app. lia. }
    exists l', lk', st'. split; [exact E'|].
    unfold supplied. cbn [map concat fst]. fold (supplied calls).
    rewrite <- app_assoc in Hw'. split; [exact Hw'|].
    rewrite Hlog', Hlog1. cbn. by rewrite app_nil_r.
Qed.

(** C6, as amended.  The count checker's result is true exactly when the
    number of positional arguments is at least [count], whatever the named
    arguments.  A wrapper with this checker, called successively with
    named arguments none of which is called [self], calls the wrapped
    function at the call that brings the number of positional arguments to
    [count] or more, with every positional argument in order and with
    named arguments that include every name supplied in any of the
    calls.  A call with a named argument [self] raises [TypeError] and the
    wrapped function is not called. *)
Theorem count_checker_decision count :
  (∀ args kwargs st0,
     call_callable fenv (CCount count) args kwargs st0
       = (Ok (VBool (bool_decide (count ≤ Z.of_nat (length args))%Z)), st0))
  ∧ (∀ g st l lk acc d init last,
       wrapper_with fenv st l lk (CFun g) (CCount count) acc d →
       (∀ c, c ∈ init ++ [last] → "self" ∉ dom c.2) →
       init = [] ∨ (Z.of_nat (length acc + length (supplied init)) < count)%Z →
       (count ≤ Z.of_nat (length acc + length (supplied (init ++ [last]))))%Z →
       ∃ st',
         let calls := init ++ [last] in
         invoke_all fenv (VObj l) calls st
           = (fn_body (fenv g) (acc ++ supplied calls) (overlay d calls), st')
         ∧ log st' = log st ++ [(g, acc ++ supplied calls, overlay d calls)]
         ∧ dom d ⊆ dom (overlay d calls)
         ∧ ∀ c, c ∈ calls → dom c.2 ⊆ dom (overlay d calls))
  ∧ (∀ g st l lk acc d args kwargs,
       wrapper_with fenv st l lk (CFun g) (CCount count) acc d →
       "self" ∈ dom kwargs →
       invoke fenv (VObj l) args kwargs st = (Raise TypeError, st)).
Proof.
  split; [|split].
  3:{ intros g st l lk acc d args kwargs Hw Hself.
      rewrite (invoke_wrapper _ _ _ _ _ _ _ _ _ Hw).
      by apply call_named_self. }
  { intros args kwargs st0.
    cbn [call_callable]. unfold count_function, ret. do 3 f_equal.
    destruct (Z.leb_spec count (Z.of_nat (length args))).
    - by rewrite bool_decide_eq_true_2.
    - rewrite bool_decide_eq_false_2; [done|lia]. }
  intros g st l lk acc d init last Hw Hself Hinit Hge.
  cbv zeta. rewrite invoke_all_app.
  assert (∃ l' lk' st1,
            invoke_all fenv (VObj l) init st = (Ok (VObj l'), st1)
            ∧ wrapper_with fenv st1 l' lk' (CFun g) (CCount count)
                (acc ++ supplied init) (overlay d init)
            ∧ log st1 = log st) as (l' & lk' & st1 & E1 & Hw1 & Hlog1).
  { destruct Hinit as [->|Hlt].
    - exists l, lk, st. cbn. by rewrite app_nil_r.
    - eapply count_partial_calls; [exact Hw| |exact Hlt].
      intros c Hc. apply Hself. apply elem_of_app. by left. }
  erewrite bind_ok by exact E1. destruct last as [a k].
  rewrite invoke_all_single.
  rewrite supplied_snoc, length_app in Hge. cbn [fst] in Hge.
  destruct (call_final st1 l' lk' (CFun g) (CCount count)
              (acc ++ supplied init) (overlay d init) a k (VBool true) Hw1)
    as (st' & E & _ & Hlog); [done|done| |done| |].
  { cbn [pure_call]. do 2 f_equal. apply Z.leb_le.
    rewrite !length_app. lia. }
  { apply (Hself (a, k)). apply elem_of_app. right. left. }
  exists st'. rewrite (invoke_wrapper _ _ _ _ _ _ _ _ _ Hw1).
  rewrite supplied_snoc, overlay_snoc, app_assoc. cbn [fst snd].
  split; [exact E|]. split; [by rewrite Hlog, Hlog1|].
  change (k ∪ overlay d init) with ((a, k).2 ∪ overlay d init).
  rewrite <- (overlay_snoc d init (a, k)). apply overlay_dom.
Qed.

(** ** The required parameters *)





(** ** The descriptor *)

Lemma setattr_eq st inst attrs s v :
  heap st !! inst = Some (OInstance attrs) →
  setattr (VObj inst) (VStr s) v st
    = (Ok (), State (<[inst := OInstance (<[s := v]> attrs)]> (heap st))
                    (log st)).
Proof. intros H. unfold setattr, bind, get_heap. by rewrite H. Qed.

(** Access through an instance: the bound wrapper is built, then assigned
    to the instance under the function's name, then under its docstring. *)
Lemma get_unfold st l lk f ck acc d inst attrs ty :
  wrapper_with fenv st l lk f ck acc d →
  heap st !! inst = Some (OInstance attrs) →
  ∃ l' lk' st1,
    wrapper_with fenv st1 l' lk' f ck (acc ++ [VObj inst]) d
    ∧ heap st ⊆ heap st1 ∧ log st1 = log st ∧ (l' ∉ dom (heap st))
    ∧ __get__ fenv l (VObj inst) ty st =
        let named :=
          <[callable_name fenv f := VObj l']> attrs in
        match callable_doc fenv f with
        | VStr s =>
            (Ok (VObj l'),
             State (<[inst := OInstance (<[s := VObj l']> named)]> (heap st1))
                   (log st1))
        | _ =>
            (Raise TypeError,
             State (<[inst := OInstance named]> (heap st1)) (log st1))
        end.
Proof.
  intros Hw Hinst.
  destruct (construct_wrapper f ck (acc ++ [VObj inst]) lk d st)
    as (l' & lk' & st1 & E & Hw' & Hsub & Hlog & Hl' & _); [apply Hw|].
  exists l', lk', st1. do 4 (split; [done|]).
  pose proof (lookup_weaken _ _ _ _ Hinst Hsub) as Hinst1.
  unfold __get__.
  erewrite bind_ok by (apply read_curry_eq, Hw).
  cbn [self_args self_kwargs self_function self_evaluation_checker].
  erewrite bind_ok by reflexivity.
  erewrite bind_ok.
  2:{ rewrite (class_call_construct _ _ f (VCallable ck)
                 (VTuple (acc ++ [VObj inst])) (VObj lk))
        by apply binds_bound.
      exact E. }
  erewrite bind_ok by reflexivity.
  erewrite bind_ok by (by apply setattr_eq).
  erewrite bind_ok by reflexivity.
  cbv zeta.
  destruct (callable_doc fenv f) eqn:Hdoc; try reflexivity.
  erewrite bind_ok by (apply setattr_eq; cbn [heap]; apply lookup_insert_eq).
  cbn [heap log]. by rewrite insert_insert_eq.
Qed.

(** Objects other than the instance are not changed by the assignment. *)
Lemma wrapper_with_insert st l lk f ck acc d inst attrs attrs' lg :
  heap st !! inst = Some (OInstance attrs) →
  wrapper_with fenv st l lk f ck acc d →
  wrapper_with fenv (State (<[inst := OInstance attrs']> (heap st)) lg)
    l lk f ck acc d.
Proof.
  intros Hinst [Hl Hlk]. split; cbn [heap].
  - rewrite lookup_insert_ne; [done|]. intros ->. congruence.
  - rewrite lookup_insert_ne; [done|]. intros ->. congruence.
Qed.

(** X16.  A function without a docstring: the second assignment fails, after the
    first has been made. *)
Lemma get_without_docstring st l lk f ck acc d inst attrs ty :
  wrapper_with fenv st l lk f ck acc d →
  heap st !! inst = Some (OInstance attrs) →
  callable_doc fenv f = VNone →
  ∃ l' st',
    __get__ fenv l (VObj inst) ty st = (Raise TypeError, st')
    ∧ heap st' !! inst
        = Some (OInstance (<[callable_name fenv f := VObj l']> attrs)).
Proof.
  intros Hw Hinst Hdoc.
  destruct (get_unfold st l lk f ck acc d inst attrs ty Hw Hinst)
    as (l' & lk' & st1 & _ & _ & _ & _ & E).
  rewrite Hdoc in E. cbv zeta in E.
  eexists l', _. split; [exact E|]. cbn [heap]. apply lookup_insert_eq.
Qed.


(** X17.  The assignments of an access through an instance, for a wrapped
    callable with a docstring: the new bound wrapper is assigned to the
    instance attribute named by the function's name and to the instance
    attribute named by the function's docstring; the wrapper, its
    dictionary and every other object are left as they were. *)
Lemma get_assigns_attributes st l lk f ck acc d inst attrs ty s :
  wrapper_with fenv st l lk f ck acc d →
  heap st !! inst = Some (OInstance attrs) →
  callable_doc fenv f = VStr s →
  ∃ l' st',
    __get__ fenv l (VObj inst) ty st = (Ok (VObj l'), st')
    ∧ (l' ∉ dom (heap st))
    ∧ heap st' !! inst
        = Some (OInstance
                  (<[s := VObj l']>
                     (<[callable_name fenv f := VObj l']> attrs)))
    ∧ wrapper_with fenv st' l lk f ck acc d
    ∧ (∀ l0 o, l0 ≠ inst → heap st !! l0 = Some o → heap st' !! l0 = Some o)
    ∧ log st' = log st.
Proof.
  intros Hw Hinst Hdoc.
  destruct (get_unfold st l lk f ck acc d inst attrs ty Hw Hinst)
    as (l' & lk' & st1 & Hw' & Hsub & Hlog & Hl' & E).
  rewrite Hdoc in E. cbv zeta in E.
  pose proof (lookup_weaken _ _ _ _ Hinst Hsub) as Hinst1.
  eexists l', _. split; [exact E|]. split; [exact Hl'|]. cbn [heap log].
  split; [apply lookup_insert_eq|].
  split.
  { apply (wrapper_with_insert st1 _ _ _ _ _ _ _ attrs); [done|].
    by eapply wrapper_with_mono. }
  split; [|done].
  intros l0 o Hne Hl0. rewrite lookup_insert_ne by done.
  by eapply lookup_weaken.
Qed.

(** ** The curried constructor *)

(** The checker derived from [curry.__init__]: [function] is the one
    parameter without a default. *)
Lemma curry_arity_none (K : gset string) :
  "function" ∉ K →
  arity_enough (getargspec fenv CCurry) (function_args fenv CCurry) 0 K
    = false.
Proof.
  intros HK. unfold arity_enough, needed_args, function_args.
  cbn. apply bool_decide_eq_false. set_solver.
Qed.

Lemma curry_arity_one (K : gset string) :
  arity_enough (getargspec fenv CCurry) (function_args fenv CCurry) 1 K
    = true.
Proof. reflexivity. Qed.

(** C8.  The public constructor is a wrapper of the class [curry] with the
    arity checker of the class.  Called with a named evaluation checker
    alone, it returns a new wrapper of the class, holding that named
    argument; this wrapper, called with one callable [f], returns a wrapper
    of [f] with the given checker and no accumulated arguments, and [f] is
    not called. *)
Theorem curried_constructor st public X f :
  wrapper_at fenv st public CCurry (CArity CCurry) [] ∅ →
  let named : gmap string value :=
    {[ "evaluation_checker" := VCallable X ]} in
  ∃ l1 st1,
    invoke fenv (VObj public) [] named st = (Ok (VObj l1), st1)
    ∧ wrapper_at fenv st1 l1 CCurry (CArity CCurry) [] named
    ∧ (l1 ∉ dom (heap st))
    ∧ ∃ l2 st2,
        invoke fenv (VObj l1) [VCallable f] ∅ st1 = (Ok (VObj l2), st2)
        ∧ wrapper_at fenv st2 l2 f X [] ∅
        ∧ (l2 ∉ dom (heap st1))
        ∧ log st2 = log st.
Proof.
  intros [lk Hw] named.
  destruct (call_partial st public lk CCurry (CArity CCurry) [] ∅ []
              named (VBool false) Hw)
    as (l1 & lk1 & st1 & E1 & Hw1 & _ & Hlog1 & Hl1 & _); [done| |done|no_self|].
  { cbn [pure_call app length]. rewrite curry_arity_none; [done|].
    unfold named. rewrite (right_id_L ∅ (∪)), dom_singleton_L. set_solver. }
  rewrite (right_id_L ∅ (∪)) in Hw1. cbn [app] in Hw1.
  exists l1, st1. rewrite (invoke_wrapper _ _ _ _ _ _ _ _ _ Hw).
  split; [exact E1|]. split; [by exists lk1|]. split; [exact Hl1|].
  rewrite (invoke_wrapper _ _ _ _ _ _ _ _ _ Hw1).
  rewrite (call_unfold _ _ _ _ _ _ _ _ _ Hw1) by no_self. cbv zeta.
  rewrite (left_id_L ∅ (∪)). cbn [app].
  rewrite call_pure by done. cbn [pure_call length].
  rewrite curry_arity_one. cbn [truthy call_callable call_log heap log].
  rewrite (class_call_construct _ _ f (VCallable X) (VTuple []) VNone)
    by apply binds_with_checker.
  match goal with |- context [construct _ _ _ _ _ ?s] => set (st1' := s) end.
  destruct (construct_empty f (VCallable X) X st1')
    as (l2 & lk2 & st2 & E2 & Hw2 & _ & Hlog2 & Hl2 & _); [done|].
  exists l2, st2. split; [exact E2|]. split; [by exists lk2|].
  split.
  - intros Hin. apply Hl2. unfold st1', merged_state. cbn [heap].
    rewrite dom_insert_L. set_solver.
  - rewrite Hlog2. unfold st1', merged_state. cbn [log].
    rewrite app_nil_r, Hlog1.
    cbn. by rewrite app_nil_r.
Qed.
End Properties.

(** C5: the code at the failing input.  [greater_than] declares [x] and [y]
    and accepts no other named argument.  The call with the named argument
    [z] raises nothing and returns a wrapper that holds [z]; the error
    comes only from the function itself, when a later call completes the
    arguments. *)
Theorem unrecognized_name_not_reported :
  ∃ l st0 l' st',
    wrap example_fenv (CFun 0) empty_state = (Ok (VObj l), st0)
    ∧ invoke example_fenv (VObj l) [] {[ "z" := VInt 1 ]} st0
        = (Ok (VObj l'), st')
    ∧ wrapper_at example_fenv st' l' (CFun 0) (CArity (CFun 0)) []
        {[ "z" := VInt 1 ]}
    ∧ fst (invoke example_fenv (VObj l') [VInt 40; VInt 39] ∅ st')
        = Raise TypeError.
Proof.
  destruct (wrap_wrapper example_fenv (CFun 0) empty_state)
    as (l & lk & st0 & E & Hw & _).
  destruct (call_partial example_fenv st0 l lk (CFun 0) (CArity (CFun 0)) [] ∅
              [] {[ "z" := VInt 1 ]} (VBool false) Hw)
    as (l' & lk' & st' & E' & Hw' & _); [done|by vm_compute|done|no_self|].
  exists l, st0, l', st'. split; [exact E|].
  rewrite (invoke_wrapper _ _ _ _ _ _ _ _ _ _ Hw). split; [exact E'|].
  rewrite (right_id_L ∅ (∪)) in Hw'. split; [by exists lk'|].
  destruct (call_final example_fenv st' l' lk' (CFun 0) (CArity (CFun 0))
              [] {[ "z" := VInt 1 ]} [VInt 40; VInt 39] ∅ (VBool true) Hw')
    as (st'' & E'' & _); [done|done|by vm_compute|done|no_self|].
  rewrite (invoke_wrapper _ _ _ _ _ _ _ _ _ _ Hw'), E''. by vm_compute.
Qed.

(** C1: the code at the failing input.  [account.add] is the method
    [def add(self, x, y)] bound to [account]: its callers supply the two
    parameters [x] and [y], neither with a default, and [account.add(1, 2)]
    is 3.  [inspect.getargspec] reports the three parameters [self], [x]
    and [y], and the checker drops the receiver only for a class (lines
    64-67).  So [curry(account.add)], called with 1 and then with 2, has
    received exactly two arguments and returns a wrapper, the method not
    having been called; a third argument makes the wrapper call the method
    with three arguments, which raises [TypeError]. *)
Theorem bound_method_is_not_evaluated :
  fn_is_bound_method (method_fenv 0) = true
  ∧ call_params method_fenv (CFun 0) = ["x"; "y"]
  ∧ spec_defaults (getargspec method_fenv (CFun 0)) = []
  ∧ function_args method_fenv (CFun 0) = ["self"; "x"; "y"]
  ∧ fn_body (method_fenv 0) [VInt 1; VInt 2] ∅ = Ok (VInt 3)
  ∧ wrap method_fenv (CFun 0) empty_state = (Ok (VObj 1), st_method)
  ∧ invoke_all method_fenv (VObj 1) (positional [[VInt 1]; [VInt 2]])
      st_method = (Ok (VObj 7), st_method_2)
  ∧ wrapper_at method_fenv st_method_2 7 (CFun 0) (CArity (CFun 0))
      [VInt 1; VInt 2] ∅
  ∧ log st_method_2 = []
  ∧ invoke_all method_fenv (VObj 1)
      (positional [[VInt 1]; [VInt 2]; [VInt 3]]) st_method
    = (Raise TypeError, st_method_3)
  ∧ log st_method_3 = [(0, [VInt 1; VInt 2; VInt 3], ∅)].
Proof.
  split; [reflexivity|]. split; [reflexivity|]. split; [reflexivity|].
  split; [reflexivity|]. split; [vm_compute; reflexivity|].
  split; [vm_compute; reflexivity|]. split; [vm_compute; reflexivity|].
  split; [exists 6; split; vm_compute; reflexivity|].
  split; [vm_compute; reflexivity|]. split; vm_compute; reflexivity.
Qed.

(** ** The theorems at concrete inputs *)

(** [curry(Point)] for [class Point] with [def __init__(self, x, y)]: the
    callers of [Point] supply two parameters.  The first call, with 3,
    returns a wrapper; the split 3, 4 calls [Point] once. *)
Lemma curry_arity_split_witness :
  fn_is_bound_method (method_fenv 1) = false
  ∧ spec_defaults (getargspec method_fenv (CFun 1)) = []
  ∧ length (call_params method_fenv (CFun 1)) = 2
  ∧ ∃ l st0,
      wrap method_fenv (CFun 1) empty_state = (Ok (VObj l), st0)
      ∧ (∃ lj stj l' st',
           invoke_all method_fenv (VObj l) (positional (take 0 [[VInt 3]]))
             st0 = (Ok (VObj lj), stj)
           ∧ wrapper_at method_fenv stj lj (CFun 1) (CArity (CFun 1))
               (concat (take 0 [[VInt 3]])) ∅
           ∧ invoke method_fenv (VObj lj) [VInt 3] ∅ stj = (Ok (VObj l'), st')
           ∧ wrapper_at method_fenv st' l' (CFun 1) (CArity (CFun 1))
               (concat (take 0 [[VInt 3]]) ++ [VInt 3]) ∅
           ∧ (l' ∉ dom (heap stj))
           ∧ log st' = log empty_state)
      ∧ (∃ st',
           invoke_all method_fenv (VObj l)
             (positional ([[VInt 3]] ++ [[VInt 4]])) st0
             = (fn_body (method_fenv 1) (concat [[VInt 3]] ++ [VInt 4]) ∅, st')
           ∧ log st'
             = log empty_state ++ [(1, concat [[VInt 3]] ++ [VInt 4], ∅)]).
Proof.
  split; [reflexivity|]. split; [reflexivity|]. split; [reflexivity|].
  destruct (curry_arity_split method_fenv 1 empty_state eq_refl eq_refl)
    as (l & st0 & E & P1 & P2).
  exists l, st0. split; [exact E|]. split.
  - apply (P1 [[VInt 3]] 0 [VInt 3]); [vm_compute; lia|reflexivity].
  - apply (P2 [[VInt 3]] [VInt 4]); [right; vm_compute; lia|reflexivity].
Defined.

(** The wrapper at 3 is [product] with the count checker of threshold 3,
    already applied to 1 and to [scale = 2].  It is called with 2 and
    [scale = 5]: the merged positional arguments are 1, 2, the new binding
    of [scale] wins, the checker is false on them and a wrapper that
    carries them is returned. *)
Lemma call_merges_arguments_witness :
  wrapper_at example_fenv st_count_1 3 (CFun 4) (CCount 3) [VInt 1]
    {[ "scale" := VInt 2 ]}
  ∧ ("self" ∉ dom ({[ "scale" := VInt 5 ]} : gmap string value))
  ∧ ({[ "scale" := VInt 5 ]} ∪ {[ "scale" := VInt 2 ]} : gmap string value)
      !! "scale" = Some (VInt 5)
  ∧ (let merged_args := [VInt 1] ++ [VInt 2] in
     let merged_kwargs : gmap string value :=
       {[ "scale" := VInt 5 ]} ∪ {[ "scale" := VInt 2 ]} in
     (∀ k, merged_kwargs !! k
           = match ({[ "scale" := VInt 5 ]} : gmap string value) !! k with
             | Some v => Some v
             | None => ({[ "scale" := VInt 2 ]} : gmap string value) !! k
             end)
     ∧ match call_callable example_fenv (CCount 3) merged_args
               merged_kwargs (merged_state st_count_1 merged_kwargs) with
       | (Ok enough, st1) =>
           if truthy (heap st1) enough then
             __call__ example_fenv 3 [VInt 2] {[ "scale" := VInt 5 ]}
               st_count_1
               = call_callable example_fenv (CFun 4) merged_args
                   merged_kwargs st1
           else
             ∃ l' st',
               __call__ example_fenv 3 [VInt 2] {[ "scale" := VInt 5 ]}
                 st_count_1 = (Ok (VObj l'), st')
               ∧ wrapper_at example_fenv st' l' (CFun 4) (CCount 3)
                   merged_args merged_kwargs
               ∧ l' ∉ dom (heap st_count_1)
       | (Raise e, st1) =>
           __call__ example_fenv 3 [VInt 2] {[ "scale" := VInt 5 ]} st_count_1
             = (Raise e, st1)
       end).
Proof.
  assert (wrapper_at example_fenv st_count_1 3 (CFun 4) (CCount 3) [VInt 1]
            {[ "scale" := VInt 2 ]}) as Hw.
  { exists 2. split; vm_compute; reflexivity. }
  assert ("self" ∉ dom ({[ "scale" := VInt 5 ]} : gmap string value))
    as Hself by (apply no_self_singleton; discriminate).
  split; [exact Hw|]. split; [exact Hself|]. split; [reflexivity|].
  destruct (call_merges_arguments example_fenv st_count_1 3 (CFun 4)
              (CCount 3) [VInt 1] {[ "scale" := VInt 2 ]} [VInt 2]
              {[ "scale" := VInt 5 ]} Hw) as (P1 & _ & P3).
  split; [exact P1|exact (P3 Hself)].
Defined.



(** [product] with the count checker of threshold 3, called with one
    positional argument at a time; [scale] is named in the first call and
    named again in the second. *)
Lemma count_checker_decision_witness :
  wrapper_with example_fenv st_count 1 0 (CFun 4) (CCount 3) [] ∅
  ∧ call_callable example_fenv (CCount 3) [VInt 1; VInt 2]
      {[ "scale" := VInt 2 ]} empty_state
    = (Ok (VBool (bool_decide (3 ≤ Z.of_nat (length [VInt 1; VInt 2]))%Z)),
       empty_state)
  ∧ ∃ st',
      let calls :=
        [([VInt 1], {[ "scale" := VInt 2 ]});
         ([VInt 2], {[ "scale" := VInt 5 ]})]
          ++ [([VInt 3], ∅)] in
      invoke_all example_fenv (VObj 1) calls st_count
        = (fn_body (example_fenv 4) ([] ++ supplied calls) (overlay ∅ calls),
           st')
      ∧ log st'
        = log st_count ++ [(4, [] ++ supplied calls, overlay ∅ calls)]
      ∧ dom (∅ : gmap string value) ⊆ dom (overlay ∅ calls)
      ∧ ∀ c, c ∈ calls → dom c.2 ⊆ dom (overlay ∅ calls).
Proof.
  assert (wrapper_with example_fenv st_count 1 0 (CFun 4) (CCount 3) [] ∅)
    as Hw.
  { split; vm_compute; reflexivity. }
  destruct (count_checker_decision example_fenv 3) as (P1 & P2 & _).
  split; [exact Hw|]. split; [apply P1|].
  apply (P2 4 st_count 1 0 [] ∅
           [([VInt 1], {[ "scale" := VInt 2 ]});
            ([VInt 2], {[ "scale" := VInt 5 ]})]
           ([VInt 3], ∅) Hw).
  - intros c Hc.
    apply elem_of_cons in Hc as [->|Hc];
      [apply no_self_singleton; discriminate|].
    apply elem_of_cons in Hc as [->|Hc];
      [apply no_self_singleton; discriminate|].
    apply elem_of_cons in Hc as [->|Hc]; [apply no_self_empty|].
    by apply elem_of_nil in Hc.
  - right. vm_compute. reflexivity.
  - vm_compute. discriminate.
Defined.

(** [curry(fail)] for [def fail(x): raise ValueError(x)], called with 7:
    the checker is true, [fail] is called with 7 and the exception it
    raises is the outcome of the invocation. *)
Lemma call_propagates_outcome_witness :
  wrapper_at example_fenv st_fail 1 (CFun 5) (CArity (CFun 5)) [] ∅
  ∧ ("self" ∉ dom (∅ : gmap string value))
  ∧ fst (call_callable example_fenv (CFun 5) ([] ++ [VInt 7]) (∅ ∪ ∅)
           (merged_state st_fail (∅ ∪ ∅))) = Raise (UserError (VInt 7))
  ∧ (let underlying :=
       call_callable example_fenv (CFun 5) ([] ++ [VInt 7]) (∅ ∪ ∅)
         (merged_state st_fail (∅ ∪ ∅)) in
     __call__ example_fenv 1 [VInt 7] ∅ st_fail = underlying
     ∧ (∀ e, fst (__call__ example_fenv 1 [VInt 7] ∅ st_fail) = Raise e
             ↔ fst underlying = Raise e)
     ∧ (∀ g, CFun 5 = CFun g →
          underlying
            = (fn_body (example_fenv g) ([] ++ [VInt 7]) (∅ ∪ ∅),
               State (heap (merged_state st_fail (∅ ∪ ∅)))
                 (log (merged_state st_fail (∅ ∪ ∅))
                  ++ [(g, [] ++ [VInt 7], ∅ ∪ ∅)])))).
Proof.
  assert (wrapper_at example_fenv st_fail 1 (CFun 5) (CArity (CFun 5)) [] ∅)
    as Hw.
  { exists 0. split; vm_compute; reflexivity. }
  split; [exact Hw|]. split; [apply no_self_empty|].
  split; [vm_compute; reflexivity|].
  apply (call_propagates_outcome example_fenv st_fail 1 (CFun 5)
           (CArity (CFun 5)) [] ∅ [VInt 7] ∅ (VBool true)
           (merged_state st_fail (∅ ∪ ∅)) Hw).
  - apply no_self_empty.
  - vm_compute. reflexivity.
  - reflexivity.
Defined.


(** The documented [greet]: the two attributes assigned on the instance. *)
Lemma get_assigns_attributes_example :
  wrapper_with example_fenv st_greet 2 1 (CFun 2) (CArity (CFun 2)) [] ∅
  ∧ heap st_greet !! 0 = Some (OInstance ∅)
  ∧ callable_doc example_fenv (CFun 2) = VStr "Greet."
  ∧ ∃ l' st',
      __get__ example_fenv 2 (VObj 0) VNone st_greet = (Ok (VObj l'), st')
      ∧ (l' ∉ dom (heap st_greet))
      ∧ heap st' !! 0
          = Some (OInstance
                    (<["Greet." := VObj l']>
                       (<[callable_name example_fenv (CFun 2) := VObj l']>
                          ∅)))
      ∧ wrapper_with example_fenv st' 2 1 (CFun 2) (CArity (CFun 2)) [] ∅
      ∧ (∀ l0 o, l0 ≠ 0 → heap st_greet !! l0 = Some o →
                 heap st' !! l0 = Some o)
      ∧ log st' = log st_greet.
Proof.
  assert (wrapper_with example_fenv st_greet 2 1 (CFun 2) (CArity (CFun 2))
            [] ∅) as Hw.
  { split; vm_compute; reflexivity. }
  assert (heap st_greet !! 0 = Some (OInstance ∅)) as Hinst.
  { vm_compute. reflexivity. }
  split; [exact Hw|]. split; [exact Hinst|]. split; [reflexivity|].
  exact (get_assigns_attributes example_fenv st_greet 2 1 (CFun 2)
           (CArity (CFun 2)) [] ∅ 0 ∅ VNone "Greet." Hw Hinst eq_refl).
Defined.

(** The public [curry] after module initialisation, called with the count
    checker of threshold 2 by name, and then with [product]. *)
Lemma curried_constructor_witness :
  wrapper_at example_fenv st_module 1 CCurry (CArity CCurry) [] ∅
  ∧ (let named : gmap string value :=
       {[ "evaluation_checker" := VCallable (CCount 2) ]} in
     ∃ l1 st1,
       invoke example_fenv (VObj 1) [] named st_module = (Ok (VObj l1), st1)
       ∧ wrapper_at example_fenv st1 l1 CCurry (CArity CCurry) [] named
       ∧ (l1 ∉ dom (heap st_module))
       ∧ ∃ l2 st2,
           invoke example_fenv (VObj l1) [VCallable (CFun 4)] ∅ st1
             = (Ok (VObj l2), st2)
           ∧ wrapper_at example_fenv st2 l2 (CFun 4) (CCount 2) [] ∅
           ∧ (l2 ∉ dom (heap st1))
           ∧ log st2 = log st_module).
Proof.
  assert (wrapper_at example_fenv st_module 1 CCurry (CArity CCurry) [] ∅)
    as Hw.
  { exists 0. split; vm_compute; reflexivity. }
  split; [exact Hw|].
  exact (curried_constructor example_fenv st_module 1 (CCount 2) (CFun 4) Hw).
Defined.

(** C2, the claim as stated, at a concrete input.  The wrapper at 2 is
    [curry(greet)] for [def greet(self, greeting)], without accumulated
    arguments.  It is invoked with the named arguments [self] and
    [greeting].  On the merged arguments the checker is true and [greet]
    returns the pair of the instance and the greeting; the invocation
    raises [TypeError] instead, and nothing was merged, checked or called:
    the state is as before. *)
Lemma call_with_named_self :
  let named : gmap string value :=
    {[ "self" := VObj 0; "greeting" := VStr "hi" ]} in
  wrapper_at example_fenv st_greet 2 (CFun 2) (CArity (CFun 2)) [] ∅
  ∧ fst (call_callable example_fenv (CArity (CFun 2)) ([] ++ []) (named ∪ ∅)
           (merged_state st_greet (named ∪ ∅))) = Ok (VBool true)
  ∧ fst (call_callable example_fenv (CFun 2) ([] ++ []) (named ∪ ∅)
           (merged_state st_greet (named ∪ ∅)))
    = Ok (VTuple [VObj 0; VStr "hi"])
  ∧ __call__ example_fenv 2 [] named st_greet = (Raise TypeError, st_greet)
  ∧ __call__ example_fenv 2 [] named st_greet
    ≠ call_callable example_fenv (CFun 2) ([] ++ []) (named ∪ ∅)
        (merged_state st_greet (named ∪ ∅)).
Proof.
  intros named.
  assert (__call__ example_fenv 2 [] named st_greet
          = (Raise TypeError, st_greet)) as E by (vm_compute; reflexivity).
  split; [exists 1; split; vm_compute; reflexivity|].
  split; [vm_compute; reflexivity|].
  split; [vm_compute; reflexivity|].
  split; [exact E|].
  rewrite E. intros H. apply (f_equal fst) in H. vm_compute in H.
  discriminate H.
Qed.


(** C6, the claim as stated, at a concrete input.  [product] accepts any
    named argument; its wrapper with the count checker of threshold 3 is
    called with 1 and the named argument [self], then with 2 and 3.  The
    threshold is reached by the second call and [product] on all the
    arguments returns a value, but the first call raises [TypeError]:
    [product] is never called and nothing is forwarded. *)
Lemma count_call_with_named_self :
  let calls : list (list value * gmap string value) :=
    [([VInt 1], {[ "self" := VInt 0 ]})] ++ [([VInt 2; VInt 3], ∅)] in
  wrapper_with example_fenv st_count 1 0 (CFun 4) (CCount 3) [] ∅
  ∧ (Z.of_nat (length (@nil value)
               + length (supplied [([VInt 1], {[ "self" := VInt 0 ]})])) < 3)%Z
  ∧ (3 ≤ Z.of_nat (length (@nil value) + length (supplied calls)))%Z
  ∧ fn_body (example_fenv 4) ([] ++ supplied calls) (overlay ∅ calls)
    = Ok (VTuple [VTuple [VInt 1; VInt 2; VInt 3]; VNone])
  ∧ invoke_all example_fenv (VObj 1) calls st_count
    = (Raise TypeError, st_count)
  ∧ log st_count = [].
Proof.
  intros calls.
  split; [split; vm_compute; reflexivity|].
  split; [vm_compute; reflexivity|].
  split; [vm_compute; discriminate|].
  split; [vm_compute; reflexivity|].
  split; vm_compute; reflexivity.
Qed.


(** C10: the code at the failing input.  [greet] is declared without a
    docstring, so its [__doc__] is [None].  Access through the instance at
    0 assigns the bound wrapper (at 4) to the attribute [greet] and then
    raises [TypeError]: no second attribute is assigned and no wrapper is
    returned.  The wrapper at 2 is unchanged. *)
Theorem get_plain_greet_raises :
  wrapper_at example_fenv st_plain 2 (CFun 3) (CArity (CFun 3)) [] ∅
  ∧ heap st_plain !! 0 = Some (OInstance ∅)
  ∧ callable_doc example_fenv (CFun 3) = VNone
  ∧ fst (__get__ example_fenv 2 (VObj 0) VNone st_plain) = Raise TypeError
  ∧ heap (snd (__get__ example_fenv 2 (VObj 0) VNone st_plain)) !! 0
    = Some (OInstance {[ "greet" := VObj 4 ]})
  ∧ heap (snd (__get__ example_fenv 2 (VObj 0) VNone st_plain)) !! 2
    = heap st_plain !! 2.
Proof.
  split; [exists 1; split; vm_compute; reflexivity|].
  repeat split; vm_compute; reflexivity.
Qed.

(** ** Further properties of the class *)

Lemma binds_two (f c : value) :
  binds (bind_params init_params init_defaults [f; c] ∅) f c (VTuple []) VNone.
Proof. vm_compute. auto. Qed.

Lemma binds_with_kwargs (f k : value) :
  binds (bind_params init_params init_defaults [f] {[ "kwargs" := k ]})
        f VNone (VTuple []) k.
Proof. vm_compute. auto. Qed.

Lemma binds_with_args (f a : value) :
  binds (bind_params init_params init_defaults [f] {[ "args" := a ]})
        f VNone a VNone.
Proof. vm_compute. auto. Qed.

Lemma binds_with_none (f : value) :
  binds (bind_params init_params init_defaults [f]
           {[ "evaluation_checker" := VNone ]}) f VNone (VTuple []) VNone.
Proof. vm_compute. auto. Qed.

Section Further.

Variable fenv : fid → pyfunc.

(** X1.  The class call, whatever its arguments, calls no user function and
    changes no object that exists: it allocates at most the new wrapper and
    an empty dictionary. *)
Theorem class_call_is_silent args kwargs st :
  log (snd (curry_class_call fenv args kwargs st)) = log st
  ∧ heap st ⊆ heap (snd (curry_class_call fenv args kwargs st)).
Proof.
  split.
  - unfold curry_class_call, __init__, bind, lift, get_heap, ret, raise, alloc,
      arity_evaluation_checker, getattr_name, getattr_doc.
    repeat case_match; unfold ret, raise in *; simplify_eq; reflexivity.
  - destruct (curry_class_call fenv args kwargs st) as [r st'] eqn:E.
    by apply grows_class_call in E.
Qed.


Lemma class_call_init args kwargs f c a k st :
  binds (bind_params init_params init_defaults args kwargs) f c a k →
  curry_class_call fenv args kwargs st
    = bind (__init__ fenv f c a k)
        (λ o, bind (alloc (OCurry o)) (λ l, ret (VObj l))) st.
Proof.
  unfold curry_class_call, binds, bind at 1, lift.
  destruct (bind_params _ _ _ _) as [env|e]; [|done].
  intros (Hf & Hc & Ha & Hk). by rewrite Hf, Hc, Ha, Hk.
Qed.

(** X2.  Something that is neither a function, a class nor a heap object cannot
    be wrapped.  Without a checker the introspection of line 62 raises
    [TypeError] and the state is as before; with a checker the read of
    [function.__name__] at line 103 raises [AttributeError].  No wrapper is
    created in either case. *)
Theorem wrapping_a_non_callable_fails v c st :
  (∀ f, v ≠ VCallable f) → (∀ l, v ≠ VObj l) →
  truthy (heap st) c = true →
  curry_class_call fenv [v] ∅ st = (Raise TypeError, st)
  ∧ fst (curry_class_call fenv [v; c] ∅ st) = Raise AttributeError
  ∧ ∀ l o, heap (snd (curry_class_call fenv [v; c] ∅ st)) !! l
             = Some (OCurry o) → heap st !! l = Some (OCurry o).
Proof.
  intros Hf Hl Hc.
  rewrite (class_call_init _ _ v VNone (VTuple []) VNone)
    by apply binds_function_only.
  rewrite (class_call_init _ _ v c (VTuple []) VNone) by apply binds_two.
  unfold __init__, bind, get_heap. cbn [truthy]. rewrite Hc.
  unfold ret, alloc. cbn [heap log].
  destruct v; try (by destruct (Hf c0)); try (by destruct (Hl l));
    (split; [reflexivity|]; split; [reflexivity|]);
    intros l o Hlo; unfold getattr_name, raise in Hlo;
    cbn [snd heap] in Hlo;
    (rewrite lookup_insert_ne in Hlo; [exact Hlo|];
     intros <-; by rewrite lookup_insert_eq in Hlo).
Qed.

(** X3.  The constructor does not copy a dictionary given as [kwargs]: when it
    has bindings the wrapper holds that very dictionary, so a later update
    of it by its owner changes the named arguments the wrapper carries.
    An empty dictionary is replaced by a new one. *)
Theorem constructor_keeps_dictionary f lk d extra st :
  heap st !! lk = Some (ODict d) →
  ∃ l' lk' st',
    curry_class_call fenv [VCallable f] {[ "kwargs" := VObj lk ]} st
      = (Ok (VObj l'), st')
    ∧ wrapper_with fenv st' l' lk' f (CArity f) [] d
    ∧ (d ≠ ∅ →
       lk' = lk
       ∧ ∃ st'', dict_update lk extra st' = (Ok (), st'')
                 ∧ wrapper_with fenv st'' l' lk f (CArity f) [] (extra ∪ d))
    ∧ (d = ∅ → lk' ∉ dom (heap st)).
Proof.
  intros Hd.
  rewrite (class_call_construct fenv _ _ f VNone (VTuple []) (VObj lk))
    by apply binds_with_kwargs.
  unfold construct. cbn [truthy]. rewrite Hd.
  pose proof (fresh_heap (heap st)) as Hfr.
  destruct (decide (d = ∅)) as [->|Hne].
  - rewrite dom_empty_L, bool_decide_eq_true_2 by done. cbn [negb heap log].
    set (l0 := fresh (dom (heap st))) in *.
    set (h1 := <[l0:=ODict ∅]> (heap st)).
    pose proof (fresh_heap h1) as Hfr1.
    assert (fresh (dom h1) ≠ l0) as Hneq.
    { intros E. rewrite E in Hfr1. unfold h1 in Hfr1.
      by rewrite lookup_insert_eq in Hfr1. }
    eexists _, l0, _. split; [reflexivity|]. split; [|split; [done|]].
    + split; cbn [heap].
      * apply lookup_insert_eq.
      * rewrite lookup_insert_ne by done. apply lookup_insert_eq.
    + intros _. apply is_fresh.
  - rewrite bool_decide_eq_false_2 by (by rewrite dom_empty_iff_L).
    cbn [negb heap log].
    set (l0 := fresh (dom (heap st))) in *.
    assert (l0 ≠ lk) as Hneq by (intros E; congruence).
    eexists _, lk, _. split; [reflexivity|]. split; [|split; [|done]].
    + split; cbn [heap].
      * apply lookup_insert_eq.
      * by rewrite lookup_insert_ne.
    + intros _. split; [done|]. eexists. split.
      * apply dict_update_eq. cbn [heap]. by rewrite lookup_insert_ne.
      * split; cbn [heap].
        -- rewrite lookup_insert_ne by done. apply lookup_insert_eq.
        -- apply lookup_insert_eq.
Qed.

(** X4.  The constructor stores [args] as given.  When it is not a tuple, every
    invocation of the wrapper raises [TypeError] at line 107 (or, for a
    named argument [self], when the call is bound), before the checker or
    the wrapped callable is called and before anything is allocated. *)
Theorem call_with_args_not_a_tuple f a st :
  (∀ vs, a ≠ VTuple vs) → (∀ l, a ≠ VObj l) →
  ∃ l' st',
    curry_class_call fenv [VCallable f] {[ "args" := a ]} st
      = (Ok (VObj l'), st')
    ∧ ∀ args kwargs,
        invoke fenv (VObj l') args kwargs st' = (Raise TypeError, st').
Proof.
  intros Ht Hl.
  rewrite (class_call_construct fenv _ _ f VNone a VNone)
    by apply binds_with_args.
  unfold construct. cbn [truthy heap log].
  eexists _, _. split; [reflexivity|]. intros args kwargs.
  unfold invoke, bind at 1, get_heap. cbn [heap]. rewrite lookup_insert_eq.
  unfold __call__.
  destruct (bool_decide ("self" ∈ dom kwargs)); [reflexivity|].
  erewrite bind_ok by (apply read_curry_eq; cbn [heap]; apply lookup_insert_eq).
  cbn [self_args].
  destruct a; try (by destruct (Ht vs)); try (by destruct (Hl l));
    reflexivity.
Qed.


(** *** The arity checker *)

(** The needed parameters after [p] positional arguments are the
    parameters without default, less the first [p]. *)
Lemma needed_args_drop info (declared : list string) p :
  needed_args info declared p
    = drop p (take (length declared - length (spec_defaults info)) declared).
Proof.
  unfold needed_args. rewrite length_drop.
  set (d := length (spec_defaults info)).
  rewrite take_drop_commute.
  destruct (decide (p ≤ length declared - d)) as [Hle|Hgt].
  - do 2 f_equal. lia.
  - replace (length declared - p - d) with 0 by lia.
    rewrite Nat.add_0_r. rewrite !drop_ge; [done| |];
      rewrite length_take; lia.
Qed.

Lemma arity_enough_true info (declared : list string) p (K : gset string) :
  arity_enough info declared p K = true
  ↔ ∀ x, x ∈ needed_args info declared p → x ∈ K.
Proof.
  unfold arity_enough. cbv zeta.
  destruct (needed_args info declared p) as [|y ys] eqn:Hn.
  - split; [|done]. by intros _ x Hx%elem_of_nil.
  - rewrite bool_decide_eq_true. split.
    + intros Hsub x Hx. by apply Hsub, elem_of_list_to_set.
    + intros Hall x Hx%elem_of_list_to_set. by apply Hall.
Qed.

(** X5.  With positional arguments alone the arity checker is true exactly from
    the number of parameters without default on; from that number on it is
    true whatever the named arguments. *)
Theorem arity_checker_threshold c args more kwargs st :
  let required :=
    length (function_args fenv c)
    - length (spec_defaults (getargspec fenv c)) in
  required ≤ length more →
  call_callable fenv (CArity c) args ∅ st
    = (Ok (VBool (bool_decide (required ≤ length args))), st)
  ∧ call_callable fenv (CArity c) more kwargs st = (Ok (VBool true), st).
Proof.
  intros required Hmore. cbn [call_callable]. rewrite !evaluation_checker_eq.
  unfold arity_enough. rewrite !needed_args_drop. fold required. split.
  - do 3 f_equal. rewrite dom_empty_L.
    destruct (drop _ _) as [|x xs] eqn:Hdrop.
    + symmetry. apply bool_decide_eq_true.
      apply (f_equal length) in Hdrop.
      rewrite length_drop, length_take in Hdrop. simpl in Hdrop.
      unfold required. lia.
    + assert (length args < required).
      { apply (f_equal length) in Hdrop.
        rewrite length_drop, length_take in Hdrop. simpl in Hdrop. lia. }
      rewrite (bool_decide_eq_false_2 (required ≤ length args)) by lia.
      apply bool_decide_eq_false. set_solver.
  - rewrite drop_ge; [done|]. rewrite length_take. lia.
Qed.

(** X6.  Once the arity checker is true it stays true when positional arguments
    are added and when named arguments are added. *)
Theorem arity_checker_monotone c args kwargs args' kwargs' st :
  call_callable fenv (CArity c) args kwargs st = (Ok (VBool true), st) →
  length args ≤ length args' →
  dom kwargs ⊆ dom kwargs' →
  call_callable fenv (CArity c) args' kwargs' st = (Ok (VBool true), st).
Proof.
  cbn [call_callable]. rewrite !evaluation_checker_eq.
  intros [= E] Hlen Hdom. do 3 f_equal.
  apply arity_enough_true. intros x Hx.
  apply Hdom. apply (proj1 (arity_enough_true _ _ _ _) E).
  rewrite needed_args_drop in *.
  replace (length args') with (length args + (length args' - length args))
    in Hx by lia.
  rewrite <- drop_drop in Hx. by eapply subseteq_drop.
Qed.


(** *** Composition of invocations *)

(** One invocation of a wrapper whose checker and wrapped callable are not
    the class [curry]: the checker's value decides. *)
Lemma call_decided st l lk f ck acc d args kwargs v (b : bool) :
  wrapper_with fenv st l lk f ck acc d →
  ck ≠ CCurry → f ≠ CCurry →
  pure_call fenv ck (acc ++ args) (kwargs ∪ d) = Ok v →
  (∀ h, truthy h v = b) →
  "self" ∉ dom kwargs →
  if b then
    ∃ st', invoke fenv (VObj l) args kwargs st
             = (pure_call fenv f (acc ++ args) (kwargs ∪ d), st')
  else
    ∃ l' lk' st',
      invoke fenv (VObj l) args kwargs st = (Ok (VObj l'), st')
      ∧ wrapper_with fenv st' l' lk' f ck (acc ++ args) (kwargs ∪ d).
Proof.
  intros Hw Hck Hf Hv Hb Hself.
  rewrite (invoke_wrapper fenv _ _ _ _ _ _ _ _ _ Hw). destruct b.
  - destruct (call_final fenv st l lk f ck acc d args kwargs v
                Hw Hck Hf Hv Hb Hself) as (st' & E & _). by exists st'.
  - destruct (call_partial fenv st l lk f ck acc d args kwargs v
                Hw Hck Hv Hb Hself) as (l' & lk' & st' & E & Hw' & _).
    by exists l', lk', st'.
Qed.

Lemma two_calls st l lk f ck acc d a1 k1 a2 k2 v1 v2 (b : bool) :
  wrapper_with fenv st l lk f ck acc d →
  ck ≠ CCurry → f ≠ CCurry →
  pure_call fenv ck (acc ++ a1) (k1 ∪ d) = Ok v1 →
  (∀ h, truthy h v1 = false) →
  pure_call fenv ck ((acc ++ a1) ++ a2) (k2 ∪ (k1 ∪ d)) = Ok v2 →
  (∀ h, truthy h v2 = b) →
  "self" ∉ dom k1 → "self" ∉ dom k2 →
  if b then
    ∃ st', invoke_all fenv (VObj l) [(a1, k1); (a2, k2)] st
             = (pure_call fenv f ((acc ++ a1) ++ a2) (k2 ∪ (k1 ∪ d)), st')
  else
    ∃ l' lk' st',
      invoke_all fenv (VObj l) [(a1, k1); (a2, k2)] st = (Ok (VObj l'), st')
      ∧ wrapper_with fenv st' l' lk' f ck ((acc ++ a1) ++ a2) (k2 ∪ (k1 ∪ d)).
Proof.
  intros Hw Hck Hf Hv1 Hb1 Hv2 Hb2 Hs1 Hs2.
  pose proof (call_decided st l lk f ck acc d a1 k1 v1 false
                Hw Hck Hf Hv1 Hb1 Hs1) as (l1 & lk1 & st1 & E1 & Hw1).
  change [(a1, k1); (a2, k2)] with ([(a1, k1)] ++ [(a2, k2)]).
  rewrite invoke_all_app, (bind_ok _ _ _ (VObj l1) st1)
    by (by rewrite invoke_all_single).
  rewrite invoke_all_single.
  exact (call_decided st1 l1 lk1 f ck _ _ a2 k2 v2 b Hw1 Hck Hf Hv2 Hb2 Hs2).
Qed.

(** X7.  Applying a wrapper in two steps is applying it in one, for calls
    without a named argument [self]: when the first call is insufficient,
    the second call gives what a single call with both calls' arguments
    gives, the outcome of the wrapped callable when the checker is then
    true, and otherwise a wrapper with the same accumulated arguments. *)
Theorem two_steps_as_one st l lk f ck acc d a1 k1 a2 k2 v1 v2 (b : bool) :
  wrapper_with fenv st l lk f ck acc d →
  ck ≠ CCurry → f ≠ CCurry →
  "self" ∉ dom k1 → "self" ∉ dom k2 →
  pure_call fenv ck (acc ++ a1) (k1 ∪ d) = Ok v1 →
  (∀ h, truthy h v1 = false) →
  pure_call fenv ck (acc ++ a1 ++ a2) (k2 ∪ k1 ∪ d) = Ok v2 →
  (∀ h, truthy h v2 = b) →
  let two := invoke_all fenv (VObj l) [(a1, k1); (a2, k2)] st in
  let one := invoke fenv (VObj l) (a1 ++ a2) (k2 ∪ k1) st in
  if b then
    fst two = pure_call fenv f (acc ++ a1 ++ a2) (k2 ∪ k1 ∪ d)
    ∧ fst one = fst two
  else
    ∃ l2 l1,
      fst two = Ok (VObj l2) ∧ fst one = Ok (VObj l1)
      ∧ wrapper_at fenv (snd two) l2 f ck (acc ++ a1 ++ a2) (k2 ∪ k1 ∪ d)
      ∧ wrapper_at fenv (snd one) l1 f ck (acc ++ a1 ++ a2) (k2 ∪ k1 ∪ d).
Proof.
  intros Hw Hck Hf Hs1 Hs2 Hv1 Hb1 Hv2 Hb2 two one.
  pose proof Hv2 as Hv2'.
  rewrite app_assoc, <- (assoc_L (∪)) in Hv2'.
  pose proof (two_calls st l lk f ck acc d a1 k1 a2 k2 v1 v2 b
                Hw Hck Hf Hv1 Hb1 Hv2' Hb2 Hs1 Hs2) as Htwo.
  pose proof (call_decided st l lk f ck acc d (a1 ++ a2) (k2 ∪ k1) v2 b
                Hw Hck Hf Hv2 Hb2 (no_self_union _ _ Hs2 Hs1)) as Hone.
  fold two in Htwo. fold one in Hone. destruct b.
  - destruct Htwo as (st2 & ->), Hone as (st1 & ->). cbn [fst].
    by rewrite app_assoc, <- (assoc_L (∪)).
  - destruct Htwo as (l2 & lk2 & st2 & -> & Hw2).
    destruct Hone as (l1 & lk1 & st1 & -> & Hw1).
    exists l2, l1. cbn [fst snd]. do 2 (split; [done|]).
    rewrite <- app_assoc, (assoc_L (∪)) in Hw2.
    split; [by exists lk2|by exists lk1].
Qed.



(** X9.  The decorator with an optional argument of the class docstring (lines
    22-42): for [def add_n(function, n=1)], that is for a function declared
    with one parameter [a] without default and one parameter [b] with a
    default, [b] not being the name [self], [add_n(n=v)] is a wrapper and
    [add_n(n=v)(x)] is the function called with [x] and [n=v], while
    [add_n(x)] is the function called with [x] alone.  The function is
    called once in each case. *)
Theorem optional_argument_decorator g a b v x st l st0 :
  declared_params fenv (CFun g) = [a; b] →
  length (spec_defaults (getargspec fenv (CFun g))) = 1 →
  a ≠ b → b ≠ "self" →
  wrap fenv (CFun g) st = (Ok (VObj l), st0) →
  (∃ l1 st1 st2,
     invoke fenv (VObj l) [] {[ b := v ]} st0 = (Ok (VObj l1), st1)
     ∧ wrapper_at fenv st1 l1 (CFun g) (CArity (CFun g)) [] {[ b := v ]}
     ∧ log st1 = log st
     ∧ invoke fenv (VObj l1) [x] ∅ st1
         = (fn_body (fenv g) [x] {[ b := v ]}, st2)
     ∧ log st2 = log st ++ [(g, [x], {[ b := v ]})])
  ∧ (∃ st1,
       invoke fenv (VObj l) [x] ∅ st0 = (fn_body (fenv g) [x] ∅, st1)
       ∧ log st1 = log st ++ [(g, [x], ∅)]).
Proof.
  intros Hargs Hdef Hab Hb Hwrap.
  rewrite <- function_args_declared in Hargs.
  assert ("self" ∉ dom ({[ b := v ]} : gmap string value)) as Hself
    by (by apply no_self_singleton).
  destruct (wrap_wrapper fenv (CFun g) st)
    as (l0 & lk & st0' & E & Hw & _ & Hlog & _).
  rewrite Hwrap in E. injection E as <- <-.
  assert (∀ K, arity_enough (getargspec fenv (CFun g))
                 (function_args fenv (CFun g)) 1 K = true) as Hone.
  { intros K. apply arity_enough_true. intros y.
    rewrite needed_args_drop, Hargs, Hdef.
    change (drop 1 (take (length [a; b] - 1) [a; b])) with (@nil string).
    intros Hy. inversion Hy. }
  assert (arity_enough (getargspec fenv (CFun g))
            (function_args fenv (CFun g)) 0 (dom ({[ b := v ]} ∪ ∅ : gmap string value))
          = false) as Hzero.
  { apply not_true_is_false. rewrite arity_enough_true.
    rewrite needed_args_drop, Hargs, Hdef.
    change (drop 0 (take (length [a; b] - 1) [a; b])) with [a].
    intros Hall. specialize (Hall a (list_elem_of_here _ _)).
    rewrite (right_id_L ∅ (∪)), dom_singleton_L in Hall.
    apply elem_of_singleton in Hall. contradiction. }
  split.
  - destruct (call_partial fenv st0 l lk (CFun g) (CArity (CFun g)) [] ∅ []
                {[ b := v ]} (VBool false) Hw)
      as (l1 & lk1 & st1 & E1 & Hw1 & _ & Hlog1 & _); [done| |done|no_self|].
    { cbn [pure_call app length]. by rewrite Hzero. }
    rewrite (right_id_L ∅ (∪)) in Hw1. cbn [app call_log] in Hw1, Hlog1.
    rewrite app_nil_r in Hlog1.
    destruct (call_final fenv st1 l1 lk1 (CFun g) (CArity (CFun g)) []
                {[ b := v ]} [x] ∅ (VBool true) Hw1)
      as (st2 & E2 & _ & Hlog2); [done|done| |done|no_self|].
    { cbn [pure_call app length]. by rewrite Hone. }
    rewrite (left_id_L ∅ (∪)) in E2, Hlog2. cbn [app call_log] in E2, Hlog2.
    exists l1, st1, st2.
    rewrite (invoke_wrapper fenv _ _ _ _ _ _ _ _ _ Hw).
    rewrite (invoke_wrapper fenv _ _ _ _ _ _ _ _ _ Hw1).
    split; [exact E1|]. split; [by exists lk1|]. split; [congruence|].
    split; [exact E2|]. rewrite Hlog2, Hlog1, Hlog. done.
  - destruct (call_final fenv st0 l lk (CFun g) (CArity (CFun g)) [] ∅
                [x] ∅ (VBool true) Hw)
      as (st1 & E1 & _ & Hlog1); [done|done| |done|no_self|].
    { cbn [pure_call app length]. by rewrite Hone. }
    rewrite (left_id_L ∅ (∪)) in E1, Hlog1. cbn [app call_log] in E1, Hlog1.
    exists st1. rewrite (invoke_wrapper fenv _ _ _ _ _ _ _ _ _ Hw).
    split; [exact E1|]. by rewrite Hlog1, Hlog.
Qed.

(** *** The public constructor *)

(** X10.  The public [curry], called with a callable [f]: it returns a wrapper of
    [f] without accumulated arguments and does not call [f].  The checker
    is the arity checker derived from [f] when no checker is given or when
    the one given is [None] (line 99), and the given checker otherwise. *)
Theorem public_curry_wraps st public f X :
  wrapper_at fenv st public CCurry (CArity CCurry) [] ∅ →
  (∃ l' st',
     invoke fenv (VObj public) [VCallable f] ∅ st = (Ok (VObj l'), st')
     ∧ wrapper_at fenv st' l' f (CArity f) [] ∅
     ∧ (l' ∉ dom (heap st)) ∧ log st' = log st)
  ∧ (∃ l' st',
       invoke fenv (VObj public) [VCallable f]
         {[ "evaluation_checker" := VNone ]} st = (Ok (VObj l'), st')
       ∧ wrapper_at fenv st' l' f (CArity f) [] ∅
       ∧ (l' ∉ dom (heap st)) ∧ log st' = log st)
  ∧ (∃ l' st',
       invoke fenv (VObj public) [VCallable f]
         {[ "evaluation_checker" := VCallable X ]} st = (Ok (VObj l'), st')
       ∧ wrapper_at fenv st' l' f X [] ∅
       ∧ (l' ∉ dom (heap st)) ∧ log st' = log st).
Proof.
  intros [lk Hw].
  assert (∀ (named : gmap string value) c ck,
            binds (bind_params init_params init_defaults [VCallable f] named)
              (VCallable f) c (VTuple []) VNone →
            (∀ h, (if truthy h c then c else VCallable (CArity f))
                  = VCallable ck) →
            "self" ∉ dom named →
            ∃ l' st',
              invoke fenv (VObj public) [VCallable f] named st
                = (Ok (VObj l'), st')
              ∧ wrapper_at fenv st' l' f ck [] ∅
              ∧ (l' ∉ dom (heap st)) ∧ log st' = log st) as Hall.
  { intros named c ck Hb Hc Hself.
    rewrite (invoke_wrapper fenv _ _ _ _ _ _ _ _ _ Hw).
    rewrite (call_unfold fenv _ _ _ _ _ _ _ _ _ Hw) by no_self. cbv zeta.
    rewrite (right_id_L ∅ (∪)). cbn [app].
    rewrite call_pure by done. cbn [pure_call length].
    rewrite curry_arity_one. cbn [truthy call_callable call_log heap log].
    rewrite (class_call_construct fenv _ _ f c (VTuple []) VNone) by exact Hb.
    match goal with |- context [construct _ _ _ _ _ ?s] => set (st1 := s) end.
    destruct (construct_empty fenv f c ck st1)
      as (l2 & lk2 & st2 & E2 & Hw2 & _ & Hlog2 & Hl2 & _); [apply Hc|].
    exists l2, st2. split; [exact E2|]. split; [by exists lk2|]. split.
    - intros Hin. apply Hl2. unfold st1, merged_state. cbn [heap].
      rewrite dom_insert_L. set_solver.
    - rewrite Hlog2. unfold st1, merged_state. cbn [log]. by rewrite app_nil_r. }
  split; [|split].
  - apply (Hall ∅ VNone (CArity f)); [apply binds_function_only|done|no_self].
  - apply (Hall _ VNone (CArity f)); [apply binds_with_none|done|no_self].
  - apply (Hall _ (VCallable X) X); [apply binds_with_checker|done|no_self].
Qed.

(** X11.  The public [curry] called without arguments raises nothing: it returns
    another wrapper of the class, like the public one. *)
Theorem public_curry_without_arguments st public :
  wrapper_at fenv st public CCurry (CArity CCurry) [] ∅ →
  ∃ l' st',
    invoke fenv (VObj public) [] ∅ st = (Ok (VObj l'), st')
    ∧ wrapper_at fenv st' l' CCurry (CArity CCurry) [] ∅
    ∧ (l' ∉ dom (heap st)) ∧ log st' = log st.
Proof.
  intros [lk Hw].
  destruct (call_partial fenv st public lk CCurry (CArity CCurry) [] ∅ [] ∅
              (VBool false) Hw)
    as (l1 & lk1 & st1 & E1 & Hw1 & _ & Hlog1 & Hl1 & _); [done| |done|no_self|].
  { cbn [pure_call app length]. rewrite curry_arity_none; [done|].
    rewrite (right_id_L ∅ (∪)), dom_empty_L. set_solver. }
  rewrite (right_id_L ∅ (∪)) in Hw1. cbn [app call_log] in Hw1, Hlog1.
  exists l1, st1. rewrite (invoke_wrapper fenv _ _ _ _ _ _ _ _ _ Hw).
  split; [exact E1|]. split; [by exists lk1|]. split; [exact Hl1|].
  by rewrite Hlog1, app_nil_r.
Qed.

(** X12.  The public [curry] called with something that is neither a function, a
    class nor a heap object raises [TypeError]: the checker is true on one
    positional argument, the class is called and its introspection of the
    argument fails.  No wrapper is created. *)
Theorem public_curry_rejects_non_callable st public v :
  wrapper_at fenv st public CCurry (CArity CCurry) [] ∅ →
  (∀ f, v ≠ VCallable f) → (∀ l, v ≠ VObj l) →
  fst (invoke fenv (VObj public) [v] ∅ st) = Raise TypeError
  ∧ ∀ l o, heap (snd (invoke fenv (VObj public) [v] ∅ st)) !! l
             = Some (OCurry o) → heap st !! l = Some (OCurry o).
Proof.
  intros [lk Hw] Hf Hl.
  rewrite (invoke_wrapper fenv _ _ _ _ _ _ _ _ _ Hw).
  rewrite (call_unfold fenv _ _ _ _ _ _ _ _ _ Hw) by no_self. cbv zeta.
  rewrite (right_id_L ∅ (∪)). cbn [app].
  rewrite call_pure by done. cbn [pure_call length].
  rewrite curry_arity_one. cbn [truthy call_callable call_log heap log].
  rewrite (class_call_init _ _ v VNone (VTuple []) VNone)
    by apply binds_function_only.
  unfold __init__, bind, get_heap. cbn [truthy].
  assert (arity_evaluation_checker v
            {| heap := heap (merged_state st ∅);
               log := log (merged_state st ∅) ++ [] |}
          = (Raise TypeError,
             {| heap := heap (merged_state st ∅);
                log := log (merged_state st ∅) ++ [] |})) as ->.
  { destruct v; try reflexivity; [by destruct (Hf c)|by destruct (Hl l)]. }
  split; [reflexivity|]. cbn [snd heap merged_state]. intros l o Hlo.
  rewrite lookup_insert_ne in Hlo; [exact Hlo|].
  intros <-. by rewrite lookup_insert_eq in Hlo.
Qed.


(** *** The descriptor and the dictionary of named arguments *)

Lemma construct_with_dictionary f ck a lk d st :
  heap st !! lk = Some (ODict d) →
  ∃ l' lk' st',
    construct fenv f (VCallable ck) (VTuple a) (VObj lk) st
      = (Ok (VObj l'), st')
    ∧ wrapper_with fenv st' l' lk' f ck a d
    ∧ heap st ⊆ heap st' ∧ log st' = log st
    ∧ (l' ∉ dom (heap st))
    ∧ (d ≠ ∅ → lk' = lk) ∧ (d = ∅ → lk' ∉ dom (heap st)).
Proof.
  intros Hd. unfold construct. cbn [truthy]. rewrite Hd.
  pose proof (fresh_heap (heap st)) as Hfr.
  set (l0 := fresh (dom (heap st))) in *.
  destruct (decide (d = ∅)) as [->|Hne].
  - rewrite dom_empty_L, bool_decide_eq_true_2 by done. cbn [negb heap log].
    set (h1 := <[l0:=ODict ∅]> (heap st)).
    pose proof (fresh_heap h1) as Hfr1.
    assert (fresh (dom h1) ≠ l0) as Hneq.
    { intros E. rewrite E in Hfr1. unfold h1 in Hfr1.
      by rewrite lookup_insert_eq in Hfr1. }
    eexists _, l0, _. split; [reflexivity|]. unfold wrapper_with. cbn [heap log].
    split; [split|].
    + apply lookup_insert_eq.
    + rewrite lookup_insert_ne by done. apply lookup_insert_eq.
    + split; [|split; [done|split; [|split; [done|]]]].
      * etrans; [|by apply insert_subseteq]. by apply insert_subseteq.
      * apply not_elem_of_dom. unfold h1 in Hfr1.
        by rewrite lookup_insert_ne in Hfr1.
      * intros _. apply is_fresh.
  - rewrite bool_decide_eq_false_2 by (by rewrite dom_empty_iff_L).
    cbn [negb heap log].
    assert (l0 ≠ lk) as Hneq by (intros E; congruence).
    eexists _, lk, _. split; [reflexivity|]. unfold wrapper_with. cbn [heap log].
    split; [split|].
    + apply lookup_insert_eq.
    + by rewrite lookup_insert_ne.
    + split; [by apply insert_subseteq|].
      split; [done|]. split; [apply is_fresh|]. split; done.
Qed.

(** X13.  Access through an instance does not copy the named arguments: when the
    wrapper has accumulated named arguments, the bound wrapper holds the
    very dictionary of the wrapper it comes from (unlike the wrapper that an
    invocation returns, which gets a copy); when it has none, the bound
    wrapper gets a new empty dictionary. *)
Theorem get_shares_dictionary st l lk f ck acc d inst attrs ty s :
  wrapper_with fenv st l lk f ck acc d →
  heap st !! inst = Some (OInstance attrs) →
  callable_doc fenv f = VStr s →
  ∃ l' lk' st',
    __get__ fenv l (VObj inst) ty st = (Ok (VObj l'), st')
    ∧ wrapper_with fenv st' l' lk' f ck (acc ++ [VObj inst]) d
    ∧ wrapper_with fenv st' l lk f ck acc d
    ∧ l' ≠ l
    ∧ (d ≠ ∅ → lk' = lk) ∧ (d = ∅ → lk' ∉ dom (heap st)).
Proof.
  intros Hw Hinst Hdoc.
  destruct (construct_with_dictionary f ck (acc ++ [VObj inst]) lk d st)
    as (l' & lk' & st1 & E & Hw' & Hsub & Hlog & Hl' & Hshare & Hnew);
    [apply Hw|].
  pose proof (lookup_weaken _ _ _ _ Hinst Hsub) as Hinst1.
  exists l', lk'. eexists. split.
  { unfold __get__.
    erewrite bind_ok by (apply read_curry_eq, Hw).
    cbn [self_args self_kwargs self_function self_evaluation_checker].
    erewrite bind_ok by reflexivity.
    erewrite bind_ok.
    2:{ rewrite (class_call_construct fenv _ _ f (VCallable ck)
                   (VTuple (acc ++ [VObj inst])) (VObj lk))
          by apply binds_bound.
        exact E. }
    erewrite bind_ok by reflexivity.
    erewrite bind_ok by (by apply setattr_eq).
    erewrite bind_ok by (cbn [getattr_doc]; rewrite Hdoc; reflexivity).
    erewrite bind_ok
      by (apply setattr_eq; cbn [heap]; apply lookup_insert_eq).
    reflexivity. }
  cbn [heap log]. rewrite insert_insert_eq.
  split; [by apply (wrapper_with_insert fenv st1 _ _ _ _ _ _ _ attrs)|].
  split.
  { apply (wrapper_with_insert fenv st1 _ _ _ _ _ _ _ attrs); [done|].
    by eapply wrapper_with_mono. }
  split; [|done].
  intros ->. apply Hl'. destruct Hw as [Hl _]. by apply elem_of_dom_2 in Hl.
Qed.


(** *** Evaluation *)

(** X14.  A wrapper with the arity checker, called without a named argument
    [self] when the positional arguments reach the number of declared
    parameters without default: the wrapped function is called once, with
    all the positional arguments, also those beyond its parameters, and
    all the named arguments; nothing is cut off or checked. *)
Theorem evaluates_from_threshold st l lk g acc d args kwargs :
  wrapper_with fenv st l lk (CFun g) (CArity (CFun g)) acc d →
  "self" ∉ dom kwargs →
  length (declared_params fenv (CFun g))
    - length (spec_defaults (getargspec fenv (CFun g)))
    ≤ length acc + length args →
  ∃ st',
    invoke fenv (VObj l) args kwargs st
      = (fn_body (fenv g) (acc ++ args) (kwargs ∪ d), st')
    ∧ log st' = log st ++ [(g, acc ++ args, kwargs ∪ d)]
    ∧ heap st ⊆ heap st'.
Proof.
  intros Hw Hself Hge. rewrite <- function_args_declared in Hge.
  destruct (call_final fenv st l lk (CFun g) (CArity (CFun g)) acc d
              args kwargs (VBool true) Hw)
    as (st' & E & Hsub & Hlog); [done|done| |done|exact Hself|].
  { cbn [pure_call]. do 2 f_equal. apply arity_enough_true.
    intros x. rewrite needed_args_drop, drop_ge; [by intros ?%elem_of_nil|].
    rewrite length_take, length_app. lia. }
  exists st'. rewrite (invoke_wrapper fenv _ _ _ _ _ _ _ _ _ Hw).
  split; [exact E|]. split; [by rewrite Hlog|exact Hsub].
Qed.

(** X15.  A checker that is a user function is called once in each invocation
    without a named argument [self], before the wrapped function and with
    the arguments the wrapped function would get (lines 93-96).  The
    wrapped function is called after it when its result is true, and is
    not called when its result is false or when it raises; an exception of
    the checker is the outcome of the invocation. *)
Theorem custom_checker_sees_arguments st l lk g h acc d args kwargs :
  wrapper_with fenv st l lk (CFun g) (CFun h) acc d →
  "self" ∉ dom kwargs →
  let margs := acc ++ args in
  let mkwargs := kwargs ∪ d in
  let r := invoke fenv (VObj l) args kwargs st in
  (∀ e, fn_body (fenv h) margs mkwargs = Raise e →
        fst r = Raise e ∧ log (snd r) = log st ++ [(h, margs, mkwargs)])
  ∧ (∀ v, fn_body (fenv h) margs mkwargs = Ok v →
          (∀ hp, truthy hp v = true) →
          fst r = fn_body (fenv g) margs mkwargs
          ∧ log (snd r)
            = log st ++ [(h, margs, mkwargs); (g, margs, mkwargs)])
  ∧ (∀ v, fn_body (fenv h) margs mkwargs = Ok v →
          (∀ hp, truthy hp v = false) →
          (∃ l', fst r = Ok (VObj l'))
          ∧ log (snd r) = log st ++ [(h, margs, mkwargs)]).
Proof.
  intros Hw Hself margs mkwargs r. unfold r.
  rewrite (invoke_wrapper fenv _ _ _ _ _ _ _ _ _ Hw).
  split; [|split].
  - intros e Hv.
    rewrite (call_unfold fenv _ _ _ _ _ _ _ _ _ Hw) by no_self. cbv zeta.
    rewrite call_pure by done. cbn [pure_call]. fold margs mkwargs.
    rewrite Hv. done.
  - intros v Hv Ht.
    destruct (call_final fenv st l lk (CFun g) (CFun h) acc d args kwargs v
                Hw) as (st' & -> & _ & Hlog);
      [done|done|exact Hv|exact Ht|exact Hself|].
    cbn [fst snd]. split; [done|]. rewrite Hlog. done.
  - intros v Hv Hf.
    destruct (call_partial fenv st l lk (CFun g) (CFun h) acc d args kwargs v
                Hw) as (l' & lk' & st' & -> & _ & _ & Hlog & _);
      [done|exact Hv|exact Hf|exact Hself|].
    cbn [fst snd]. split; [by exists l'|]. rewrite Hlog. done.
Qed.

(** X19.  The name [self] cannot be passed through a wrapper: an invocation
    with a named argument [self] raises [TypeError] when Python binds the
    call to [__call__] (line 106), whatever the wrapper holds and whatever
    the wrapped callable accepts.  Nothing is copied, checked or called:
    the state is as before. *)
Theorem named_self_is_rejected st l lk f ck acc d args kwargs :
  wrapper_with fenv st l lk f ck acc d →
  "self" ∈ dom kwargs →
  invoke fenv (VObj l) args kwargs st = (Raise TypeError, st).
Proof.
  intros Hw Hself. rewrite (invoke_wrapper fenv _ _ _ _ _ _ _ _ _ Hw).
  by apply call_named_self.
Qed.

End Further.

(** ** The further properties at concrete inputs *)

(** The integer 3 given to the class, alone and with the count checker. *)
Lemma wrapping_a_non_callable_fails_witness :
  curry_class_call example_fenv [VInt 3] ∅ empty_state
    = (Raise TypeError, empty_state)
  ∧ fst (curry_class_call example_fenv [VInt 3; VCallable (CCount 1)] ∅
           empty_state) = Raise AttributeError
  ∧ ∀ l o,
      heap (snd (curry_class_call example_fenv
                   [VInt 3; VCallable (CCount 1)] ∅ empty_state)) !! l
        = Some (OCurry o) → heap empty_state !! l = Some (OCurry o).
Proof.
  apply (wrapping_a_non_callable_fails example_fenv (VInt 3)
           (VCallable (CCount 1)) empty_state).
  - discriminate.
  - discriminate.
  - reflexivity.
Defined.

(** [curry(f, kwargs=d)] for the dictionary [{'y': 5}] at 0, later updated
    with [{'y': 6}] by its owner. *)
Lemma constructor_keeps_dictionary_witness :
  heap st_dictionary !! 0 = Some (ODict {[ "y" := VInt 5 ]})
  ∧ ∃ l' lk' st',
      curry_class_call example_fenv [VCallable (CFun 1)]
        {[ "kwargs" := VObj 0 ]} st_dictionary = (Ok (VObj l'), st')
      ∧ wrapper_with example_fenv st' l' lk' (CFun 1) (CArity (CFun 1)) []
          {[ "y" := VInt 5 ]}
      ∧ (({[ "y" := VInt 5 ]} : gmap string value) ≠ ∅ →
         lk' = 0
         ∧ ∃ st'',
             dict_update 0 {[ "y" := VInt 6 ]} st' = (Ok (), st'')
             ∧ wrapper_with example_fenv st'' l' 0 (CFun 1) (CArity (CFun 1))
                 [] ({[ "y" := VInt 6 ]} ∪ {[ "y" := VInt 5 ]}))
      ∧ (({[ "y" := VInt 5 ]} : gmap string value) = ∅ →
         lk' ∉ dom (heap st_dictionary)).
Proof.
  assert (heap st_dictionary !! 0 = Some (ODict {[ "y" := VInt 5 ]})) as Hd.
  { vm_compute. reflexivity. }
  split; [exact Hd|].
  exact (constructor_keeps_dictionary example_fenv (CFun 1) 0
           {[ "y" := VInt 5 ]} {[ "y" := VInt 6 ]} st_dictionary Hd).
Defined.

(** [curry(f, args=5)]. *)
Lemma call_with_args_not_a_tuple_witness :
  ∃ l' st',
    curry_class_call example_fenv [VCallable (CFun 1)] {[ "args" := VInt 5 ]}
      empty_state = (Ok (VObj l'), st')
    ∧ ∀ args kwargs,
        invoke example_fenv (VObj l') args kwargs st' = (Raise TypeError, st').
Proof.
  apply (call_with_args_not_a_tuple example_fenv (CFun 1) (VInt 5) empty_state).
  - discriminate.
  - discriminate.
Defined.

(** [def f(x, y=1)]: one parameter without default. *)
Lemma arity_checker_threshold_witness :
  1 ≤ length [VInt 7; VInt 8; VInt 9]
  ∧ (let required :=
       length (function_args example_fenv (CFun 1))
       - length (spec_defaults (getargspec example_fenv (CFun 1))) in
     call_callable example_fenv (CArity (CFun 1)) [] ∅ empty_state
       = (Ok (VBool (bool_decide (required ≤ length (@nil value)))),
          empty_state)
     ∧ call_callable example_fenv (CArity (CFun 1)) [VInt 7; VInt 8; VInt 9]
         {[ "z" := VInt 0 ]} empty_state = (Ok (VBool true), empty_state)).
Proof.
  assert (1 ≤ length [VInt 7; VInt 8; VInt 9]) as H by (simpl; lia).
  split; [exact H|].
  exact (arity_checker_threshold example_fenv (CFun 1) []
           [VInt 7; VInt 8; VInt 9] {[ "z" := VInt 0 ]} empty_state H).
Defined.

(** [greater_than]: true with [x] positional and [y] named, hence true
    with one more positional argument and one more name. *)
Lemma arity_checker_monotone_witness :
  call_callable example_fenv (CArity (CFun 0)) [VInt 40]
    {[ "y" := VInt 39 ]} empty_state = (Ok (VBool true), empty_state)
  ∧ length [VInt 40] ≤ length [VInt 40; VInt 39]
  ∧ dom ({[ "y" := VInt 39 ]} : gmap string value)
      ⊆ dom ({[ "y" := VInt 39; "z" := VInt 0 ]} : gmap string value)
  ∧ call_callable example_fenv (CArity (CFun 0)) [VInt 40; VInt 39]
      {[ "y" := VInt 39; "z" := VInt 0 ]} empty_state
    = (Ok (VBool true), empty_state).
Proof.
  assert (call_callable example_fenv (CArity (CFun 0)) [VInt 40]
            {[ "y" := VInt 39 ]} empty_state = (Ok (VBool true), empty_state))
    as H1 by (vm_compute; reflexivity).
  assert (length [VInt 40] ≤ length [VInt 40; VInt 39]) as H2 by (simpl; lia).
  assert (dom ({[ "y" := VInt 39 ]} : gmap string value)
          ⊆ dom ({[ "y" := VInt 39; "z" := VInt 0 ]} : gmap string value))
    as H3.
  { rewrite !dom_insert_L. set_solver. }
  split; [exact H1|]. split; [exact H2|]. split; [exact H3|].
  exact (arity_checker_monotone example_fenv (CFun 0) [VInt 40]
           {[ "y" := VInt 39 ]} [VInt 40; VInt 39]
           {[ "y" := VInt 39; "z" := VInt 0 ]} empty_state H1 H2 H3).
Defined.

(** [curry(greater_than)]: 40 and then [y=39], against 40 and [y=39] at
    once. *)
Lemma two_steps_as_one_witness :
  wrapper_with example_fenv st_greater 1 0 (CFun 0) (CArity (CFun 0)) [] ∅
  ∧ ("self" ∉ dom (∅ : gmap string value))
  ∧ ("self" ∉ dom ({[ "y" := VInt 39 ]} : gmap string value))
  ∧ (let two :=
       invoke_all example_fenv (VObj 1)
         [([VInt 40], ∅); ([], {[ "y" := VInt 39 ]})] st_greater in
     let one :=
       invoke example_fenv (VObj 1) ([VInt 40] ++ [])
         ({[ "y" := VInt 39 ]} ∪ ∅) st_greater in
     if true then
       fst two
         = pure_call example_fenv (CFun 0) ([] ++ [VInt 40] ++ [])
             ({[ "y" := VInt 39 ]} ∪ ∅ ∪ ∅)
       ∧ fst one = fst two
     else
       ∃ l2 l1,
         fst two = Ok (VObj l2) ∧ fst one = Ok (VObj l1)
         ∧ wrapper_at example_fenv (snd two) l2 (CFun 0) (CArity (CFun 0))
             ([] ++ [VInt 40] ++ []) ({[ "y" := VInt 39 ]} ∪ ∅ ∪ ∅)
         ∧ wrapper_at example_fenv (snd one) l1 (CFun 0) (CArity (CFun 0))
             ([] ++ [VInt 40] ++ []) ({[ "y" := VInt 39 ]} ∪ ∅ ∪ ∅)).
Proof.
  assert (wrapper_with example_fenv st_greater 1 0 (CFun 0) (CArity (CFun 0))
            [] ∅) as Hw.
  { split; vm_compute; reflexivity. }
  assert ("self" ∉ dom ({[ "y" := VInt 39 ]} : gmap string value)) as Hs
    by (apply no_self_singleton; discriminate).
  split; [exact Hw|]. split; [exact no_self_empty|]. split; [exact Hs|].
  apply (two_steps_as_one example_fenv st_greater 1 0 (CFun 0)
           (CArity (CFun 0)) [] ∅ [VInt 40] ∅ [] {[ "y" := VInt 39 ]}
           (VBool false) (VBool true) true Hw).
  - discriminate.
  - discriminate.
  - exact no_self_empty.
  - exact Hs.
  - vm_compute. reflexivity.
  - reflexivity.
  - vm_compute. reflexivity.
  - reflexivity.
Defined.


(** [def f(x, y=1)] used as the decorator of the docstring. *)
Lemma optional_argument_decorator_witness :
  declared_params example_fenv (CFun 1) = ["x"; "y"]
  ∧ length (spec_defaults (getargspec example_fenv (CFun 1))) = 1
  ∧ "x" ≠ "y" ∧ "y" ≠ "self"
  ∧ wrap example_fenv (CFun 1) empty_state = (Ok (VObj 1), st_pair)
  ∧ (∃ l1 st1 st2,
       invoke example_fenv (VObj 1) [] {[ "y" := VInt 12 ]} st_pair
         = (Ok (VObj l1), st1)
       ∧ wrapper_at example_fenv st1 l1 (CFun 1) (CArity (CFun 1)) []
           {[ "y" := VInt 12 ]}
       ∧ log st1 = log empty_state
       ∧ invoke example_fenv (VObj l1) [VInt 7] ∅ st1
           = (fn_body (example_fenv 1) [VInt 7] {[ "y" := VInt 12 ]}, st2)
       ∧ log st2 = log empty_state ++ [(1, [VInt 7], {[ "y" := VInt 12 ]})])
  ∧ (∃ st1,
       invoke example_fenv (VObj 1) [VInt 7] ∅ st_pair
         = (fn_body (example_fenv 1) [VInt 7] ∅, st1)
       ∧ log st1 = log empty_state ++ [(1, [VInt 7], ∅)]).
Proof.
  assert (wrap example_fenv (CFun 1) empty_state = (Ok (VObj 1), st_pair))
    as Hwrap by (vm_compute; reflexivity).
  assert ("x" ≠ "y") as Hne by discriminate.
  assert ("y" ≠ "self") as Hns by discriminate.
  split; [reflexivity|]. split; [reflexivity|]. split; [exact Hne|].
  split; [exact Hns|]. split; [exact Hwrap|].
  exact (optional_argument_decorator example_fenv 1 "x" "y" (VInt 12) (VInt 7)
           empty_state 1 st_pair eq_refl eq_refl Hne Hns Hwrap).
Defined.

(** The public [curry] after module initialisation, given [product]. *)
Lemma public_curry_wraps_witness :
  wrapper_at example_fenv st_module 1 CCurry (CArity CCurry) [] ∅
  ∧ (∃ l' st',
       invoke example_fenv (VObj 1) [VCallable (CFun 4)] ∅ st_module
         = (Ok (VObj l'), st')
       ∧ wrapper_at example_fenv st' l' (CFun 4) (CArity (CFun 4)) [] ∅
       ∧ (l' ∉ dom (heap st_module)) ∧ log st' = log st_module)
  ∧ (∃ l' st',
       invoke example_fenv (VObj 1) [VCallable (CFun 4)]
         {[ "evaluation_checker" := VNone ]} st_module = (Ok (VObj l'), st')
       ∧ wrapper_at example_fenv st' l' (CFun 4) (CArity (CFun 4)) [] ∅
       ∧ (l' ∉ dom (heap st_module)) ∧ log st' = log st_module)
  ∧ (∃ l' st',
       invoke example_fenv (VObj 1) [VCallable (CFun 4)]
         {[ "evaluation_checker" := VCallable (CCount 3) ]} st_module
         = (Ok (VObj l'), st')
       ∧ wrapper_at example_fenv st' l' (CFun 4) (CCount 3) [] ∅
       ∧ (l' ∉ dom (heap st_module)) ∧ log st' = log st_module).
Proof.
  assert (wrapper_at example_fenv st_module 1 CCurry (CArity CCurry) [] ∅)
    as Hw.
  { exists 0. split; vm_compute; reflexivity. }
  split; [exact Hw|].
  exact (public_curry_wraps example_fenv st_module 1 (CFun 4) (CCount 3) Hw).
Defined.

Lemma public_curry_without_arguments_witness :
  wrapper_at example_fenv st_module 1 CCurry (CArity CCurry) [] ∅
  ∧ ∃ l' st',
      invoke example_fenv (VObj 1) [] ∅ st_module = (Ok (VObj l'), st')
      ∧ wrapper_at example_fenv st' l' CCurry (CArity CCurry) [] ∅
      ∧ (l' ∉ dom (heap st_module)) ∧ log st' = log st_module.
Proof.
  assert (wrapper_at example_fenv st_module 1 CCurry (CArity CCurry) [] ∅)
    as Hw.
  { exists 0. split; vm_compute; reflexivity. }
  split; [exact Hw|].
  exact (public_curry_without_arguments example_fenv st_module 1 Hw).
Defined.

(** The public [curry] given the integer 3. *)
Lemma public_curry_rejects_non_callable_witness :
  wrapper_at example_fenv st_module 1 CCurry (CArity CCurry) [] ∅
  ∧ fst (invoke example_fenv (VObj 1) [VInt 3] ∅ st_module) = Raise TypeError
  ∧ ∀ l o,
      heap (snd (invoke example_fenv (VObj 1) [VInt 3] ∅ st_module)) !! l
        = Some (OCurry o) → heap st_module !! l = Some (OCurry o).
Proof.
  assert (wrapper_at example_fenv st_module 1 CCurry (CArity CCurry) [] ∅)
    as Hw.
  { exists 0. split; vm_compute; reflexivity. }
  split; [exact Hw|].
  apply (public_curry_rejects_non_callable example_fenv st_module 1 (VInt 3)
           Hw).
  - discriminate.
  - discriminate.
Defined.

(** The documented [greet] holding [greeting='hi'], accessed through the
    instance at 0: the bound wrapper holds the dictionary at 3 too. *)
Lemma get_shares_dictionary_witness :
  wrapper_with example_fenv st_greet_named 4 3 (CFun 2) (CArity (CFun 2)) []
    {[ "greeting" := VStr "hi" ]}
  ∧ heap st_greet_named !! 0 = Some (OInstance ∅)
  ∧ callable_doc example_fenv (CFun 2) = VStr "Greet."
  ∧ ∃ l' lk' st',
      __get__ example_fenv 4 (VObj 0) VNone st_greet_named
        = (Ok (VObj l'), st')
      ∧ wrapper_with example_fenv st' l' lk' (CFun 2) (CArity (CFun 2))
          ([] ++ [VObj 0]) {[ "greeting" := VStr "hi" ]}
      ∧ wrapper_with example_fenv st' 4 3 (CFun 2) (CArity (CFun 2)) []
          {[ "greeting" := VStr "hi" ]}
      ∧ l' ≠ 4
      ∧ (({[ "greeting" := VStr "hi" ]} : gmap string value) ≠ ∅ → lk' = 3)
      ∧ (({[ "greeting" := VStr "hi" ]} : gmap string value) = ∅ →
         lk' ∉ dom (heap st_greet_named)).
Proof.
  assert (wrapper_with example_fenv st_greet_named 4 3 (CFun 2)
            (CArity (CFun 2)) [] {[ "greeting" := VStr "hi" ]}) as Hw.
  { split; vm_compute; reflexivity. }
  assert (heap st_greet_named !! 0 = Some (OInstance ∅)) as Hinst.
  { vm_compute. reflexivity. }
  split; [exact Hw|]. split; [exact Hinst|]. split; [reflexivity|].
  exact (get_shares_dictionary example_fenv st_greet_named 4 3 (CFun 2)
           (CArity (CFun 2)) [] {[ "greeting" := VStr "hi" ]} 0 ∅ VNone
           "Greet." Hw Hinst eq_refl).
Defined.

(** [def f(x, y=1)] called with three positional arguments. *)
Lemma evaluates_from_threshold_witness :
  wrapper_with example_fenv st_pair 1 0 (CFun 1) (CArity (CFun 1)) [] ∅
  ∧ ("self" ∉ dom (∅ : gmap string value))
  ∧ length (declared_params example_fenv (CFun 1))
      - length (spec_defaults (getargspec example_fenv (CFun 1)))
      ≤ length (@nil value) + length [VInt 7; VInt 8; VInt 9]
  ∧ ∃ st',
      invoke example_fenv (VObj 1) [VInt 7; VInt 8; VInt 9] ∅ st_pair
        = (fn_body (example_fenv 1) ([] ++ [VInt 7; VInt 8; VInt 9]) (∅ ∪ ∅),
           st')
      ∧ log st'
        = log st_pair ++ [(1, [] ++ [VInt 7; VInt 8; VInt 9], ∅ ∪ ∅)]
      ∧ heap st_pair ⊆ heap st'.
Proof.
  assert (wrapper_with example_fenv st_pair 1 0 (CFun 1) (CArity (CFun 1))
            [] ∅) as Hw.
  { split; vm_compute; reflexivity. }
  assert (length (declared_params example_fenv (CFun 1))
          - length (spec_defaults (getargspec example_fenv (CFun 1)))
          ≤ length (@nil value) + length [VInt 7; VInt 8; VInt 9]) as Hge.
  { vm_compute. lia. }
  split; [exact Hw|]. split; [exact no_self_empty|]. split; [exact Hge|].
  exact (evaluates_from_threshold example_fenv st_pair 1 0 1 [] ∅
           [VInt 7; VInt 8; VInt 9] ∅ Hw no_self_empty Hge).
Defined.

(** [product] with the checker of the docstring, called with three
    positional arguments and [scale = 2]. *)
Lemma custom_checker_sees_arguments_witness :
  wrapper_with checker_fenv st_custom 1 0 (CFun 0) (CFun 1) [] ∅
  ∧ ("self" ∉ dom ({[ "scale" := VInt 2 ]} : gmap string value))
  ∧ (let margs := [] ++ [VInt 1; VInt 2; VInt 3] in
     let mkwargs : gmap string value := {[ "scale" := VInt 2 ]} ∪ ∅ in
     let r :=
       invoke checker_fenv (VObj 1) [VInt 1; VInt 2; VInt 3]
         {[ "scale" := VInt 2 ]} st_custom in
     (∀ e, fn_body (checker_fenv 1) margs mkwargs = Raise e →
           fst r = Raise e
           ∧ log (snd r) = log st_custom ++ [(1, margs, mkwargs)])
     ∧ (∀ v, fn_body (checker_fenv 1) margs mkwargs = Ok v →
             (∀ hp, truthy hp v = true) →
             fst r = fn_body (checker_fenv 0) margs mkwargs
             ∧ log (snd r)
               = log st_custom ++ [(1, margs, mkwargs); (0, margs, mkwargs)])
     ∧ (∀ v, fn_body (checker_fenv 1) margs mkwargs = Ok v →
             (∀ hp, truthy hp v = false) →
             (∃ l', fst r = Ok (VObj l'))
             ∧ log (snd r) = log st_custom ++ [(1, margs, mkwargs)])).
Proof.
  assert (wrapper_with checker_fenv st_custom 1 0 (CFun 0) (CFun 1) [] ∅)
    as Hw.
  { split; vm_compute; reflexivity. }
  assert ("self" ∉ dom ({[ "scale" := VInt 2 ]} : gmap string value)) as Hs
    by (apply no_self_singleton; discriminate).
  split; [exact Hw|]. split; [exact Hs|].
  exact (custom_checker_sees_arguments checker_fenv st_custom 1 0 0 1 [] ∅
           [VInt 1; VInt 2; VInt 3] {[ "scale" := VInt 2 ]} Hw Hs).
Defined.

(** [greet] without docstring, accessed through the instance at 0. *)
Lemma get_without_docstring_witness :
  wrapper_with example_fenv st_plain 2 1 (CFun 3) (CArity (CFun 3)) [] ∅
  ∧ heap st_plain !! 0 = Some (OInstance ∅)
  ∧ callable_doc example_fenv (CFun 3) = VNone
  ∧ ∃ l' st',
      __get__ example_fenv 2 (VObj 0) VNone st_plain = (Raise TypeError, st')
      ∧ heap st' !! 0
        = Some (OInstance
                  (<[callable_name example_fenv (CFun 3) := VObj l']> ∅)).
Proof.
  assert (wrapper_with example_fenv st_plain 2 1 (CFun 3) (CArity (CFun 3))
            [] ∅) as Hw.
  { split; vm_compute; reflexivity. }
  assert (heap st_plain !! 0 = Some (OInstance ∅)) as Hinst.
  { vm_compute. reflexivity. }
  split; [exact Hw|]. split; [exact Hinst|]. split; [reflexivity|].
  exact (get_without_docstring example_fenv st_plain 2 1 (CFun 3)
           (CArity (CFun 3)) [] ∅ 0 ∅ VNone Hw Hinst eq_refl).
Defined.

(** [product] with the count checker, given three arguments and a named
    argument [self], which [product] itself accepts. *)
Lemma named_self_is_rejected_witness :
  wrapper_with example_fenv st_count 1 0 (CFun 4) (CCount 3) [] ∅
  ∧ "self" ∈ dom ({[ "self" := VInt 0 ]} : gmap string value)
  ∧ fn_body (example_fenv 4) [VInt 1; VInt 2; VInt 3] {[ "self" := VInt 0 ]}
    = Ok (VTuple [VTuple [VInt 1; VInt 2; VInt 3]; VNone])
  ∧ invoke example_fenv (VObj 1) [VInt 1; VInt 2; VInt 3]
      {[ "self" := VInt 0 ]} st_count = (Raise TypeError, st_count).
Proof.
  assert (wrapper_with example_fenv st_count 1 0 (CFun 4) (CCount 3) [] ∅)
    as Hw.
  { split; vm_compute; reflexivity. }
  assert ("self" ∈ dom ({[ "self" := VInt 0 ]} : gmap string value)) as Hs.
  { rewrite dom_singleton_L. by apply elem_of_singleton. }
  split; [exact Hw|]. split; [exact Hs|]. split; [vm_compute; reflexivity|].
  exact (named_self_is_rejected example_fenv st_count 1 0 (CFun 4) (CCount 3)
           [] ∅ [VInt 1; VInt 2; VInt 3] {[ "self" := VInt 0 ]} Hw Hs).
Defined.
